(** * Yoke resolution, the frame loop and the stimulation dispatchers

    A shallow embedding of

    - [src/ethoscope/core/monitor.py]: [Monitor.__init__] (the yoke
      resolver), [Monitor.stop] and [Monitor.run];
    - [src/pysolovideo/tracking/interactors.py]: the synchronous and the
      asynchronous interactor base classes, [SleepDepInteractor] and
      [SystemPlaySoundOnStop].

    Python objects that are mutated through several references (the
    stimulators handed to the tracking units, the background processes) live
    in an explicit store and are named by references.  Python exceptions are
    the [Raise] results of a state-and-exception monad: what was written to
    the store before the exception stays written. *)

From Stdlib Require Import ZArith QArith Lia.
From stdpp Require Import base option list gmap strings.

Close Scope Q_scope.
Open Scope Z_scope.
Open Scope nat_scope.

(** ** Python preliminaries *)

Inductive exception :=
| NotImplementedError
| ValueError
| IndexError
| AttributeError
| AssertionError
| OtherError (name : string).

Inductive result (A : Type) :=
| Return (a : A)
| Raise (e : exception).
Arguments Return {A} a.
Arguments Raise {A} e.

(** [l[i]] for a Python list of length [n]: indices [0..n-1] count from the
    front, indices [-n..-1] from the back, anything else is an
    [IndexError]. *)
Definition py_index (n : nat) (i : Z) : option nat :=
  if decide (0 ≤ i < Z.of_nat n)%Z then Some (Z.to_nat i)
  else if decide (- Z.of_nat n ≤ i < 0)%Z then Some (Z.to_nat (i + Z.of_nat n))
  else None.

Definition py_get {A} (l : list A) (i : Z) : result A :=
  match py_index (length l) i with
  | Some k => match l !! k with Some a => Return a | None => Raise IndexError end
  | None => Raise IndexError
  end.

Definition py_set {A} (l : list A) (i : Z) (a : A) : result (list A) :=
  match py_index (length l) i with
  | Some k => Return (<[k := a]> l)
  | None => Raise IndexError
  end.

(** Code that mutates a state of type [St] and may raise: the state after
    an exception is the state at the point of the [raise]. *)
Definition ST (St A : Type) : Type := St → St * result A.

Definition ret {St A} (a : A) : ST St A := fun s => (s, Return a).

Definition bind {St A B} (c : ST St A) (k : A → ST St B) : ST St B :=
  fun s => match c s with
           | (s', Return a) => k a s'
           | (s', Raise e) => (s', Raise e)
           end.

Definition lift {St A} (r : result A) : ST St A := fun s => (s, r).

Definition raise {St A} (e : exception) : ST St A := fun s => (s, Raise e).

Definition get {St} : ST St St := fun s => (s, Return s).

Definition modify {St} (f : St → St) : ST St unit := fun s => (f s, Return tt).

(** Code on one component of a pair of states. *)
Definition on_fst {S1 S2 A} (c : ST S1 A) : ST (S1 * S2) A :=
  fun s => let '(s1, r) := c s.1 in ((s1, s.2), r).

Definition on_snd {S1 S2 A} (c : ST S2 A) : ST (S1 * S2) A :=
  fun s => let '(s2, r) := c s.2 in ((s.1, s2), r).

Notation "x <- c ;; k" := (bind c (fun x => k))
  (at level 100, c at next level, right associativity).

(** A [for] loop over [xs] whose body rewrites the loop variables [v]. *)
Fixpoint for_each {St A V} (body : V → A → ST St V) (xs : list A) (v : V)
    : ST St V :=
  match xs with
  | [] => ret v
  | x :: xs' => v' <- body v x ;; for_each body xs' v'
  end.

(** ** The object store of the construction phase *)

(** Trackers and stimulators are objects; they are named by references. *)
Definition tracker_ref := nat.
Definition stim_ref := nat.

(** [next_tracker] is the reference the next tracker object gets;
    [bound s] is the [_tracker] attribute of the stimulator [s], written by
    [bind_tracker]. *)
Record Heap := mkHeap {
  next_tracker : tracker_ref;
  bound : gmap stim_ref tracker_ref
}.

Abbreviation M := (ST Heap).

(** ** ethoscope/core/tracking_unit.py and ethoscope/core/monitor.py *)

Module tracking_unit.
Section tracking_unit.
Context {ROI : Type}.

Record TrackingUnit := mkTrackingUnit {
  _roi : ROI;
  _stimulator : option stim_ref;
  _tracker : tracker_ref
}.

(** [bind_tracker] of the interactor classes: [self._tracker = tracker]. *)
Definition bind_tracker (s : stim_ref) (t : tracker_ref) : M unit :=
  fun h => (mkHeap (next_tracker h) (<[s := t]> (bound h)), Return tt).

(** [tracking_class(roi, *args, **kwargs)]: a new tracker object. *)
Definition new_tracker : M tracker_ref :=
  fun h => (mkHeap (S (next_tracker h)) (bound h), Return (next_tracker h)).

(** Modelled from the spec: the constructor of [TrackingUnit], whose file
    [tracking_unit.py] is not part of the sources.  A unit owns one new
    tracker and holds its ROI and at most one stimulation action; that
    action is bound to the unit's own tracker, or to the tracker given by
    the keyword [tracker] when there is one (section 4.2: the action's
    observed state is the focal's, the unit's own positional tracker is
    always its own). *)
Definition __init__ (roi : ROI) (stimulator : option stim_ref)
    (tracker : option tracker_ref) : M TrackingUnit :=
  own <- new_tracker ;;
  _ <- match stimulator with
       | Some s => bind_tracker s (default own tracker)
       | None => ret tt
       end ;;
  ret (mkTrackingUnit roi stimulator own).
End tracking_unit.
Arguments TrackingUnit : clear implicits.
End tracking_unit.

Module monitor.
Import tracking_unit.
Section monitor.
Context {ROI Frame Row Position : Type}.

Abbreviation unit_list := (list (option (TrackingUnit ROI))).

(** The attributes of a [Monitor].  [_frame_buffer] and [_last_t] only
    come to exist in [run].  A camera is the sequence of what its iterator
    does at each request: it yields a time stamp and a frame, or raises;
    at the end of the sequence the iterator is exhausted. *)
Record Monitor := mkMonitor {
  _camera : list (result (Z * Frame));
  _last_frame_idx : Z;
  _force_stop : bool;
  _last_positions : gmap Z (list Position);
  _last_time_stamp : Z;
  _is_running : bool;
  _unit_trackers : unit_list;
  _frame_buffer : option Frame;
  _last_t : option Z
}.

(** *** Monitor.__init__ *)

(** First loop, lines 78-86: build the unit of every focal id once. *)
Definition focal_body (rois : list ROI) (stimulators : list (option stim_ref))
    (units : unit_list) (ff : Z) : M unit_list :=
  ut <- lift (py_get units (ff - 1)) ;;
  match ut with
  | None =>
      r <- lift (py_get rois (ff - 1)) ;;
      s <- lift (py_get stimulators (ff - 1)) ;;
      u <- tracking_unit.__init__ r s None ;;
      lift (py_set units (ff - 1) (Some u))
  | Some _ => ret units
  end.

(** Second loop, lines 88-97: build the unit of every yoked id, its
    stimulator bound to the tracker of the unit now standing at the focal
    index. *)
Definition yoked_body (rois : list ROI) (stimulators : list (option stim_ref))
    (units : unit_list) (yf : Z * Z) : M unit_list :=
  let '(yy, ff) := yf in
  r <- lift (py_get rois (yy - 1)) ;;
  s <- lift (py_get stimulators (yy - 1)) ;;
  fu <- lift (py_get units (ff - 1)) ;;
  match fu with
  | None => raise AttributeError
  | Some focal =>
      u <- tracking_unit.__init__ r s (Some (_tracker focal)) ;;
      lift (py_set units (yy - 1) (Some u))
  end.

(** Third loop, lines 100-102: whatever is still [None] is its own focal. *)
Definition default_body (rois : list ROI) (stimulators : list (option stim_ref))
    (units : unit_list) (i : nat) : M unit_list :=
  ut <- lift (py_get units (Z.of_nat i)) ;;
  match ut with
  | None =>
      r <- lift (py_get rois (Z.of_nat i)) ;;
      s <- lift (py_get stimulators (Z.of_nat i)) ;;
      u <- tracking_unit.__init__ r s None ;;
      lift (py_set units (Z.of_nat i) (Some u))
  | Some _ => ret units
  end.

(** Line 104.  A tracker reference is never [None] in this model, so the
    assertion can only fail by reading [_tracker] off a [None] unit. *)
Definition assert_trackers (units : unit_list) : M unit :=
  if forallb (fun ut => bool_decide (is_Some ut)) units then ret tt
  else raise AttributeError.

Definition resolve_yoke (rois : list ROI) (stimulators : list (option stim_ref))
    (yoke : list (Z * Z)) : M unit_list :=
  let units := (λ _, None) <$> rois in
  units <- for_each (focal_body rois stimulators) (snd <$> yoke) units ;;
  units <- for_each (yoked_body rois stimulators) yoke units ;;
  units <- for_each (default_body rois stimulators) (seq 0 (length units)) units ;;
  _ <- assert_trackers units ;;
  ret units.

(** One unit per element of a list comprehension (lines 69 and 74). *)
Fixpoint build_units (rs : list (ROI * option stim_ref)) : M unit_list :=
  match rs with
  | [] => ret []
  | (r, s) :: rs' =>
      u <- tracking_unit.__init__ r s None ;;
      us <- build_units rs' ;;
      ret (Some u :: us)
  end.

Definition new_monitor (camera : list (result (Z * Frame)))
    (units : unit_list) : Monitor :=
  mkMonitor camera 0%Z false ∅ 0%Z false units None None.

(** [yoke] is given decoded: [None] stands for [None] and for the empty
    string, [Some l] for a JSON object whose items, in the order of
    iteration of the dictionary, are the pairs [(int(y), int(f))] of [l].
    The tracker class is taken to construct its objects without raising. *)
Definition __init__ (camera : list (result (Z * Frame)))
    (rois : option (list ROI)) (stimulators : option (list (option stim_ref)))
    (yoke : option (list (Z * Z))) : M Monitor :=
  match rois with
  | None => raise NotImplementedError
  | Some rois =>
      match stimulators with
      | None =>
          units <- build_units ((λ r, (r, None)) <$> rois) ;;
          ret (new_monitor camera units)
      | Some stimulators =>
          if decide (length stimulators = length rois) then
            match yoke with
            | None =>
                units <- build_units (zip rois stimulators) ;;
                ret (new_monitor camera units)
            | Some yoke =>
                units <- resolve_yoke rois stimulators yoke ;;
                ret (new_monitor camera units)
            end
          else raise ValueError
      end
  end.

(** *** What holds of the units while the resolver is at work *)

(** The unit of index [k] has been constructed. *)
Definition built (units : unit_list) (k : nat) : Prop :=
  ∃ u, units !! k = Some (Some u).

(** Every unit constructed so far holds the ROI and the stimulator of its
    own index, and a tracker that exists. *)
Definition wired (rois : list ROI) (stimulators : list (option stim_ref))
    (units : unit_list) (h : Heap) : Prop :=
  length units = length rois ∧
  ∀ k u, units !! k = Some (Some u) →
    rois !! k = Some (_roi u) ∧ stimulators !! k = Some (_stimulator u) ∧
    _tracker u < next_tracker h.

(** No two units share their own tracker. *)
Definition own_trackers (units : unit_list) : Prop :=
  ∀ k k' u u', units !! k = Some (Some u) → units !! k' = Some (Some u') →
    _tracker u = _tracker u' → k = k'.

(** The index that the id [id] of a yoke mapping selects among [n] ROIs. *)
Definition index_of (n : nat) (id : Z) : option nat := py_index n (id - 1).

(** The invariants of the three loops of the resolver; [pre] is what a
    loop has gone through.  After the first loop the units constructed are
    those of the focal ids; after the second, those of the focal and of
    the yoked ids; the third loop constructs the others in the order of
    their indices, and a stimulator that stands at one index only, at an
    index constructed by this loop, observes the tracker of its unit. *)
Definition focal_inv (rois : list ROI) (stimulators : list (option stim_ref))
    (pre : list Z) (units : unit_list) (h : Heap) : Prop :=
  wired rois stimulators units h ∧ own_trackers units ∧
  (∀ f k, f ∈ pre → index_of (length rois) f = Some k → built units k) ∧
  (∀ k, built units k → ∃ f, f ∈ pre ∧ index_of (length rois) f = Some k).

Definition yoked_inv (rois : list ROI) (stimulators : list (option stim_ref))
    (focals : list Z) (pre : list (Z * Z)) (units : unit_list) (h : Heap)
    : Prop :=
  wired rois stimulators units h ∧ own_trackers units ∧
  (∀ f k, f ∈ focals → index_of (length rois) f = Some k → built units k) ∧
  (∀ k, built units k →
     ∃ id, (id ∈ focals ∨ id ∈ pre.*1) ∧ index_of (length rois) id = Some k).

Definition default_inv (rois : list ROI)
    (stimulators : list (option stim_ref)) (units0 : unit_list)
    (pre : list nat) (units : unit_list) (h : Heap) : Prop :=
  wired rois stimulators units h ∧ own_trackers units ∧
  (∀ i, i ∈ pre → built units i) ∧
  (∀ i s, units0 !! i = Some None → stimulators !! i = Some (Some s) →
     (∀ j, stimulators !! j = Some (Some s) → j = i) →
     (units !! i = Some None ∧ i ∉ pre) ∨
     (∃ u, units !! i = Some (Some u) ∧ bound h !! s = Some (_tracker u))).

(** The stimulator [s] of the unit of index [ky] observes the tracker of
    the unit of index [kf], which is not the tracker of its own unit. *)
Definition observes (units : unit_list) (h : Heap) (ky kf : nat)
    (s : stim_ref) : Prop :=
  ∃ uy uf, units !! ky = Some (Some uy) ∧ units !! kf = Some (Some uf) ∧
           _stimulator uy = Some s ∧
           bound h !! s = Some (_tracker uf) ∧ _tracker uf ≠ _tracker uy.

(** *** Attribute assignments *)

Definition set_force_stop (b : bool) (m : Monitor) : Monitor :=
  mkMonitor (_camera m) (_last_frame_idx m) b (_last_positions m)
    (_last_time_stamp m) (_is_running m) (_unit_trackers m)
    (_frame_buffer m) (_last_t m).

Definition set_is_running (b : bool) (m : Monitor) : Monitor :=
  mkMonitor (_camera m) (_last_frame_idx m) (_force_stop m)
    (_last_positions m) (_last_time_stamp m) b (_unit_trackers m)
    (_frame_buffer m) (_last_t m).

(** Lines 160-162. *)
Definition set_frame (i t : Z) (frame : Frame) (m : Monitor) : Monitor :=
  mkMonitor (_camera m) i (_force_stop m) (_last_positions m) t
    (_is_running m) (_unit_trackers m) (Some frame) (_last_t m).

Definition set_last_position (k : Z) (v : list Position) (m : Monitor)
    : Monitor :=
  mkMonitor (_camera m) (_last_frame_idx m) (_force_stop m)
    (<[k := v]> (_last_positions m)) (_last_time_stamp m) (_is_running m)
    (_unit_trackers m) (_frame_buffer m) (_last_t m).

Definition set_last_t (t : Z) (m : Monitor) : Monitor :=
  mkMonitor (_camera m) (_last_frame_idx m) (_force_stop m)
    (_last_positions m) (_last_time_stamp m) (_is_running m)
    (_unit_trackers m) (_frame_buffer m) (Some t).

(** The attributes that decide where the loop of [run] goes. *)
Definition same_control (m m' : Monitor) : Prop :=
  _unit_trackers m' = _unit_trackers m ∧ _force_stop m' = _force_stop m ∧
  _camera m' = _camera m ∧ _is_running m' = _is_running m.

(** What the loop over the units leaves as it is: the attributes that tell
    of the frame; and no ROI goes out of [_last_positions]. *)
Definition same_frame (m m' : Monitor) : Prop :=
  _last_frame_idx m' = _last_frame_idx m ∧
  _last_time_stamp m' = _last_time_stamp m ∧
  _frame_buffer m' = _frame_buffer m ∧ _last_t m' = _last_t m ∧
  dom (_last_positions m) ⊆ dom (_last_positions m').

(** *** Monitor.stop *)

Definition stop : ST Monitor unit := modify (set_force_stop true).

(** *** The read-only properties, lines 109-132 *)

Definition last_positions (m : Monitor) : gmap Z (list Position) :=
  _last_positions m.

(** The attribute is in milliseconds, the property in seconds. *)
Definition last_time_stamp (m : Monitor) : Q :=
  (inject_Z (_last_time_stamp m) / 1000)%Q.

Definition last_frame_idx (m : Monitor) : Z := _last_frame_idx m.

(** *** Monitor.run *)

(** The collaborators of [run] are outside the monitor: each is a function
    on a state [World] that the monitor does not see, and each may raise.
    [stops i] tells whether another thread calls [stop] between the
    moments the camera is asked for frame [i] and the flag is read. *)
Section run.
Context {World ResultWriter Drawer : Type}.
Variable track : TrackingUnit ROI → Z → Frame → ST World (list Row).
Variable get_last_positions : TrackingUnit ROI → ST World (list Position).
Variable idx : ROI → Z.
Variable write : ResultWriter → Z → ROI → list Row → ST World unit.
Variable flush : ResultWriter → Z → Frame → ST World unit.
Variable draw : Drawer → Frame → gmap Z (list Position) → unit_list →
                ST World unit.
Variable stops : nat → bool.

(** Lines 165-176, the body of the loop over the units. *)
Definition unit_body (t : Z) (frame : Frame)
    (result_writer : option ResultWriter) (_ : unit)
    (ut : option (TrackingUnit ROI)) : ST (Monitor * World) unit :=
  match ut with
  | None => raise AttributeError
  | Some track_u =>
      data_rows <- on_snd (track track_u t frame) ;;
      if decide (length data_rows = 0) then
        on_fst (modify (set_last_position (idx (_roi track_u)) []))
      else
        abs_pos <- on_snd (get_last_positions track_u) ;;
        _ <- on_fst
               (modify (set_last_position (idx (_roi track_u)) abs_pos)) ;;
        match result_writer with
        | Some rw => on_snd (write rw t (_roi track_u) data_rows)
        | None => ret tt
        end
  end.

(** Lines 156-183, the body of the loop over the frames, after the test
    of the flag. *)
Definition frame_body (i : nat) (t : Z) (frame : Frame)
    (result_writer : option ResultWriter) (drawer : option Drawer)
    : ST (Monitor * World) unit :=
  _ <- on_fst (modify (set_frame (Z.of_nat i) t frame)) ;;
  s <- get ;;
  _ <- for_each (unit_body t frame result_writer) (_unit_trackers s.1) tt ;;
  _ <- match result_writer with
       | Some rw => on_snd (flush rw t frame)
       | None => ret tt
       end ;;
  s <- get ;;
  _ <- match drawer with
       | Some d => on_snd (draw d frame (_last_positions s.1)
                           (_unit_trackers s.1))
       | None => ret tt
       end ;;
  on_fst (modify (set_last_t t)).

(** Line 154, [for i, (t, frame) in enumerate(self._camera)]. *)
Fixpoint frame_loop (i : nat) (camera : list (result (Z * Frame)))
    (result_writer : option ResultWriter) (drawer : option Drawer)
    : ST (Monitor * World) unit :=
  match camera with
  | [] => ret tt
  | Raise e :: _ => raise e
  | Return (t, frame) :: camera' =>
      _ <- on_fst (if stops i then stop else ret tt) ;;
      s <- get ;;
      if _force_stop s.1 then ret tt
      else
        _ <- frame_body i t frame result_writer drawer ;;
        frame_loop (S i) camera' result_writer drawer
  end.

(** [try] (lines 151-183), [except] (an exception is logged and raised
    again) and [finally] (line 190). *)
Definition run (result_writer : option ResultWriter)
    (drawer : option Drawer) : ST (Monitor * World) unit :=
  fun s =>
    let '(s', r) :=
      (_ <- on_fst (modify (set_is_running true)) ;;
       s <- get ;;
       frame_loop 0 (_camera s.1) result_writer drawer) s in
    ((set_is_running false s'.1, s'.2), r).
End run.
End monitor.
Arguments Monitor : clear implicits.
End monitor.

(** ** pysolovideo/tracking/interactors.py *)

Module interactors.

(** The values of the parameter dictionaries. *)
Inductive pyval :=
| PyBool (b : bool)
| PyInt (z : Z)
| PyFloat (q : Q)
| PyStr (s : string).

Abbreviation dict := (gmap string pyval).

(** What an interactor reads of a tracker: the history of positions and of
    their times.  Numbers are rationals: the arithmetic of the source is
    taken exact, and [math.sqrt] (to which [numpy.abs] of a complex number
    comes down) is a parameter of the development. *)
Record Position := mkPosition { x : Q; y : Q; roi_idx : Z }.

Record Tracker := mkTracker { positions : list Position; times : list Q }.

Definition Qltb (a b : Q) : bool := negb (Qle_bool b a).

(** An interactor object is the pair of the attributes of its base class and
    the attributes of its own class. *)

Module BaseInteractorSync.
Record attrs := mkAttrs { _tracker : option tracker_ref }.

Definition class_attrs : attrs := mkAttrs None.

Definition bind_tracker (tracker : tracker_ref) : ST attrs unit :=
  modify (λ _, mkAttrs (Some tracker)).

Section BaseInteractorSync.
Context {Sub World : Type}.
(** The methods a subclass defines; [_run] reads the tracker bound to
    the interactor, given here as it is at the time of the call. *)
Variable _run : Tracker → ST Sub (bool * dict).
Variable _interact : Sub → dict → ST World unit.

(** Lines 14-24; [trackers] gives every tracker object as it is at the
    time of the call. *)
Definition __call__ (trackers : tracker_ref → Tracker)
    : ST (attrs * Sub * World) dict :=
  self <- get ;;
  match _tracker self.1.1 with
  | None => raise ValueError
  | Some tr =>
      ir <- on_fst (on_snd (_run (trackers tr))) ;;
      let '(interact, result) := ir in
      _ <- (if interact : bool then
              self <- get ;;
              on_snd (_interact self.1.2 result)
            else ret tt) ;;
      ret (<["interact" := PyBool interact]> result)
  end.
End BaseInteractorSync.
End BaseInteractorSync.

Module SleepDepInteractor.
Section SleepDepInteractor.
Context {Interface World : Type}.
Variable sqrt : Q → Q.
Variable deprive : Interface → dict → ST World unit.

Record attrs := mkAttrs {
  _sleep_dep_interface : Interface;
  _t0 : option Q;
  _channel : pyval;
  _distance_threshold : Q;
  _inactivity_time_threshold : Q
}.

(** Lines 38-44. *)
Definition __init__ (channel : pyval) (sd_interface : Interface) : attrs :=
  mkAttrs sd_interface None channel (1 # 100) 90.

Definition set_t0 (t0 : option Q) (self : attrs) : attrs :=
  mkAttrs (_sleep_dep_interface self) t0 (_channel self)
    (_distance_threshold self) (_inactivity_time_threshold self).

(** Lines 46-48. *)
Definition _interact (self : attrs) (kwargs : dict) : ST World unit :=
  deprive (_sleep_dep_interface self) kwargs.

(** [np.abs(xy_m - xy_mm)] for the complex numbers of two positions. *)
Definition displacement (p q : Position) : Q :=
  sqrt ((x p - x q) * (x p - x q) + (y p - y q) * (y p - y q))%Q.

(** Lines 50-78. *)
Definition _run (tracker : Tracker) : ST attrs (bool * dict) :=
  let positions := positions tracker in
  let t := times tracker in
  self <- get ;;
  let params : dict := {[ "channel" := _channel self ]} in
  if decide (length positions < 2) then ret (false, params)
  else
    tail_m <- lift (py_get positions (-1)) ;;
    tail_mm <- lift (py_get positions (-2)) ;;
    if Qltb (displacement tail_m tail_mm) (_distance_threshold self) then
      now <- lift (py_get t (-1)) ;;
      match _t0 self with
      | None =>
          _ <- modify (set_t0 (Some now)) ;;
          ret (false, params)
      | Some t0 =>
          if Qltb (_inactivity_time_threshold self) (now - t0)%Q then
            _ <- modify (set_t0 None) ;;
            ret (true, params)
          else ret (false, params)
      end
    else
      _ <- modify (set_t0 None) ;;
      ret (false, params).

Definition __call__ := BaseInteractorSync.__call__ _run _interact.
End SleepDepInteractor.
Arguments attrs : clear implicits.
End SleepDepInteractor.

(** *** The asynchronous classes *)

(** The processes created so far, oldest first; a process object is named
    by its place in this table.  [Initial] is a process that was created and
    never started, [Running] one that [is_alive], [Exited] one that has
    come to its end. *)
Inductive status := Initial | Running | Exited.

Inductive target := beep.

Record Process := mkProcess {
  _target_of : option target;
  _kwargs : dict;
  _status : status
}.

Abbreviation processes := (list Process).

Definition is_alive (ps : processes) (p : nat) : bool :=
  match ps !! p with
  | Some pr => match _status pr with Running => true | _ => false end
  | None => false
  end.

Module BaseInteractor.
Record attrs := mkAttrs {
  _tracker : option tracker_ref;
  _subprocess : nat;
  _target : option target
}.

(** Lines 84-88.  The process of line 86 is created when the class is:
    it is the first of the table and is never started. *)
Definition class_processes : processes := [mkProcess None ∅ Initial].

Definition class_attrs : attrs := mkAttrs None 0 None.

Definition bind_tracker (tracker : tracker_ref) : ST attrs unit :=
  modify (λ self, mkAttrs (Some tracker) (_subprocess self) (_target self)).

Definition set_subprocess (p : nat) (self : attrs) : attrs :=
  mkAttrs (_tracker self) p (_target self).

Definition set_target (tg : option target) (self : attrs) : attrs :=
  mkAttrs (_tracker self) (_subprocess self) tg.

(** Lines 119-121: a new process object, started at once. *)
Definition start_process (tg : target) (kwargs : dict)
    : ST (attrs * processes) unit :=
  modify (λ s, (set_subprocess (length s.2) s.1,
                s.2 ++ [mkProcess (Some tg) kwargs Running])).

(** Lines 110-121. *)
Definition _interact_async (kwargs : dict) : ST (attrs * processes) unit :=
  s <- get ;;
  if is_alive s.2 (_subprocess s.1) then ret tt
  else
    match _target s.1 with
    | None => raise NotImplementedError
    | Some tg => start_process tg kwargs
    end.

(** What happens to an interactor and its processes: the frame loop
    decides to act, or the process [p] comes to its end. *)
Inductive event :=
| Trigger (kwargs : dict)
| Exit (p : nat).

Definition exit_process (p : nat) (ps : processes) : processes :=
  match ps !! p with
  | Some (mkProcess tg kw Running) => <[p := mkProcess tg kw Exited]> ps
  | _ => ps
  end.

Definition step (s : attrs * processes) (e : event) : attrs * processes :=
  match e with
  | Trigger kwargs => (_interact_async kwargs s).1
  | Exit p => (s.1, exit_process p s.2)
  end.

(** No process but the one the interactor holds is alive. *)
Definition single_flight (s : attrs * processes) : Prop :=
  ∀ p, is_alive s.2 p = true → p = _subprocess s.1.

(** The state of an interactor of a class with the attributes [self0]
    after the events [es]. *)
Definition after (self0 : attrs) (es : list event) : attrs * processes :=
  foldl step (set_subprocess 0 self0, class_processes) es.

Section BaseInteractor.
Context {Sub : Type}.
Variable _run : Tracker → ST Sub (bool * dict).

(** A method of the base class at work on an object of a subclass. *)
Definition on_base {A} (c : ST (attrs * processes) A)
    : ST (attrs * Sub * processes) A :=
  fun s => let '(s', r) := c (s.1.1, s.2) in ((s'.1, s.1.2, s'.2), r).

(** Lines 90-100. *)
Definition __call__ (trackers : tracker_ref → Tracker)
    : ST (attrs * Sub * processes) dict :=
  self <- get ;;
  match _tracker self.1.1 with
  | None => raise ValueError
  | Some tr =>
      ir <- on_fst (on_snd (_run (trackers tr))) ;;
      let '(interact, result) := ir in
      _ <- (if interact : bool then on_base (_interact_async result)
            else ret tt) ;;
      ret (<["interact" := PyBool interact]> result)
  end.
End BaseInteractor.
End BaseInteractor.

Module DefaultInteractor.
(** Lines 125-126. *)
Definition _run (tracker : Tracker) : ST unit (bool * dict) :=
  ret (false, ∅).

Definition __call__ := BaseInteractor.__call__ _run.
End DefaultInteractor.

Module SystemPlaySoundOnStop.
Section SystemPlaySoundOnStop.
Variable sqrt : Q → Q.

Record attrs := mkAttrs {
  _t0 : option Q;
  _freq : pyval;
  _distance_threshold : Q;
  _inactivity_time_threshold : Q;
  _rest_time : Q
}.

(** Lines 141-147: the attributes of the object, those of the base class
    first. *)
Definition __init__ (freq : pyval) : BaseInteractor.attrs * attrs :=
  (BaseInteractor.set_target (Some beep) BaseInteractor.class_attrs,
   mkAttrs None freq (2 # 10) 30 60).

Definition set_t0 (t0 : option Q) (self : attrs) : attrs :=
  mkAttrs t0 (_freq self) (_distance_threshold self)
    (_inactivity_time_threshold self) (_rest_time self).

(** Lines 154-163, the loop of [_cumulative_dist] with its variables
    [cum_dist] and [(px_lag, py_lag)]. *)
Fixpoint cumulative_loop (self : attrs) (now : Q)
    (samples : list (Q * Position)) (cum_dist : Q) (lag : option (Q * Q))
    : Q :=
  match samples with
  | [] => cum_dist
  | (t, p) :: samples' =>
      match lag with
      | None => cumulative_loop self now samples' cum_dist (Some (x p, y p))
      | Some (px_lag, py_lag) =>
          let cum_dist :=
            (cum_dist + sqrt ((px_lag - x p) * (px_lag - x p)
                              + (py_lag - y p) * (py_lag - y p)))%Q in
          if Qltb (_inactivity_time_threshold self) (now - t)%Q then cum_dist
          else cumulative_loop self now samples' cum_dist (Some (x p, y p))
      end
  end.

(** Lines 149-164. *)
Definition _cumulative_dist (self : attrs) (times : list Q)
    (positions : list Position) : result Q :=
  match py_get times (-1) with
  | Raise e => Raise e
  | Return now =>
      Return (cumulative_loop self now (reverse (zip times positions)) 0%Q
                None)
  end.

(** Lines 166-187. *)
Definition _run (tracker : Tracker) : ST attrs (bool * dict) :=
  let positions := positions tracker in
  let times := times tracker in
  self <- get ;;
  let params : dict := {[ "freq" := _freq self ]} in
  now <- lift (py_get times (-1)) ;;
  if decide (length times < 2) then ret (false, params)
  else
    t_first <- lift (py_get times 0) ;;
    if Qltb (now - t_first)%Q (_inactivity_time_threshold self)
    then ret (false, params)
    else
      cum_dist <- lift (_cumulative_dist self times positions) ;;
      _ <- lift (py_get positions (-1)) ;;
      if Qltb (_distance_threshold self) cum_dist then ret (false, params)
      else
        match _t0 self with
        | None =>
            _ <- modify (set_t0 (Some now)) ;;
            ret (true, params)
        | Some t0 =>
            if Qltb (now - t0)%Q (_rest_time self) then ret (false, params)
            else
              _ <- modify (set_t0 (Some now)) ;;
              ret (true, params)
        end.

Definition __call__ := BaseInteractor.__call__ _run.

(** The times at which [_run] decides to fire when it is called once on
    each of [calls], the tracker as it is at each call, in this order.  A
    call that raises ends the sequence, as it ends the frame loop. *)
Fixpoint fire_times (self : attrs) (calls : list Tracker) : list Q :=
  match calls with
  | [] => []
  | tracker :: calls' =>
      match _run tracker self with
      | (self', Return (true, _)) =>
          match py_get (times tracker) (-1) with
          | Return now => now :: fire_times self' calls'
          | Raise _ => fire_times self' calls'
          end
      | (self', Return (false, _)) => fire_times self' calls'
      | (_, Raise _) => []
      end
  end.

(** Each time of [l] is [gap] at least after the one before it, the first
    after [prev] when there is one. *)
Fixpoint spaced (gap : Q) (prev : option Q) (l : list Q) : Prop :=
  match l with
  | [] => True
  | t :: l' =>
      match prev with Some p => (gap <= t - p)%Q | None => True end ∧
      spaced gap (Some t) l'
  end.






End SystemPlaySoundOnStop.
End SystemPlaySoundOnStop.

End interactors.

(** ** Data of the examples *)

(** A store with no object yet, and three ROIs with a stimulator each. *)
Definition empty_heap : Heap := mkHeap 0 ∅.
Definition three_rois : list string := ["roi 1"; "roi 2"; "roi 3"].
Definition three_stimulators : list (option stim_ref) :=
  [Some 100; Some 200; Some 300].
Definition no_frame : list (result (Z * unit)) := [].

(** A square root for the examples: it is exact on the quotients of two
    squares. *)
Definition sqrt_exact (q : Q) : Q := Z.sqrt (Qnum q) # Pos.sqrt (Qden q).

(** Two samples 30 s apart, the second a fifth of a unit away from the
    first. *)
Definition threshold_walk : interactors.Tracker :=
  interactors.mkTracker
    [interactors.mkPosition 0 0 1; interactors.mkPosition (1 # 5) 0 1]
    [0%Q; 30%Q].

Definition still : interactors.Position := interactors.mkPosition 0 0 1.
Definition moved : interactors.Position := interactors.mkPosition 1 0 1.

Definition kwargs_440 : interactors.dict := {[ "freq" := interactors.PyInt 440 ]}.
Definition sound_base : interactors.BaseInteractor.attrs :=
  (interactors.SystemPlaySoundOnStop.__init__ (interactors.PyInt 440)).1.

(** A monitor of two units on a camera of two frames; the tracker of the
    second unit raises on the frame of time 1. *)
Definition unit_0 : tracking_unit.TrackingUnit string :=
  tracking_unit.mkTrackingUnit "roi 1" None 0.
Definition unit_1 : tracking_unit.TrackingUnit string :=
  tracking_unit.mkTrackingUnit "roi 2" None 1.
Definition two_frames : monitor.Monitor string unit unit :=
  monitor.new_monitor [Return (0%Z, tt); Return (1%Z, tt)]
    [Some unit_0; Some unit_1].
Definition failing_track (u : tracking_unit.TrackingUnit string) (t : Z)
    (frame : unit) : ST unit (list unit) :=
  if decide (tracking_unit._tracker u = 1 ∧ t = 1%Z)
  then raise (OtherError "tracker") else ret [tt].

(** A tracker that finds one position in every frame, and a monitor that
    has seen ROI 7 before. *)
Definition steady_track (u : tracking_unit.TrackingUnit string) (t : Z)
    (frame : unit) : ST unit (list unit) := ret [tt].
Definition seen_roi_7 : monitor.Monitor string unit unit :=
  monitor.set_last_position 7 [] two_frames.

(** * Properties *)

(** ** The monad *)

Lemma bind_Return {St A B} (c : ST St A) (k : A → ST St B) s s' a :
  c s = (s', Return a) → bind c k s = k a s'.
Proof. intros H. unfold bind. by rewrite H. Qed.

Lemma bind_Raise {St A B} (c : ST St A) (k : A → ST St B) s s' e :
  c s = (s', Raise e) → bind c k s = (s', Raise e).
Proof. intros H. unfold bind. by rewrite H. Qed.

Lemma for_each_app {St A V} (body : V → A → ST St V) xs ys v s :
  for_each body (xs ++ ys) v s =
  (v' <- for_each body xs v ;; for_each body ys v') s.
Proof.
  revert v s. induction xs as [|x xs IH]; intros v s; simpl; [done|].
  unfold bind in *. destruct (body v x s) as [s1 [v1|e]]; [|done]. apply IH.
Qed.

(** ** Monitor.stop and Monitor.run *)

Section monitor_run.
Import tracking_unit monitor.
Context {ROI Frame Row Position World ResultWriter Drawer : Type}.
Variable track : TrackingUnit ROI → Z → Frame → ST World (list Row).
Variable get_last_positions : TrackingUnit ROI → ST World (list Position).
Variable idx : ROI → Z.
Variable write : ResultWriter → Z → ROI → list Row → ST World unit.
Variable flush : ResultWriter → Z → Frame → ST World unit.
Variable draw : Drawer → Frame → gmap Z (list Position) →
                list (option (TrackingUnit ROI)) → ST World unit.
Variable stops : nat → bool.

Abbreviation Mon := (Monitor ROI Frame Position).
Abbreviation unit_body' := (unit_body track get_last_positions idx write).
Abbreviation frame_body' :=
  (frame_body track get_last_positions idx write flush draw).
Abbreviation frame_loop' :=
  (frame_loop track get_last_positions idx write flush draw stops).
Abbreviation run' :=
  (run track get_last_positions idx write flush draw stops).

Implicit Types (m : Mon) (s : Mon * World) (rw : option ResultWriter)
  (dr : option Drawer).

(** The loop over the units writes [_last_positions] and nothing else. *)
Lemma unit_body_control t frame rw v ut s s' r :
  unit_body' t frame rw v ut s = (s', r) → same_control s.1 s'.1.
Proof.
  unfold unit_body, same_control, bind, on_fst, on_snd, modify, raise, ret.
  destruct ut as [track_u|]; [|by intros [= <- _]].
  destruct (track track_u t frame s.2) as [w1 [rows|e]]; [|by intros [= <- _]].
  case_decide; simpl; [by intros [= <- _]|].
  destruct (get_last_positions track_u w1) as [w2 [abs_pos|e]]; simpl;
    [|by intros [= <- _]].
  destruct rw as [rw|]; simpl; [|by intros [= <- _]].
  destruct (write _ _ _ _ _) as [w3 [[]|e]]; by intros [= <- _].
Qed.

Lemma same_control_refl m : same_control m m.
Proof. by unfold same_control. Qed.

Lemma same_control_trans m1 m2 m3 :
  same_control m1 m2 → same_control m2 m3 → same_control m1 m3.
Proof.
  intros (?&?&?&?) (?&?&?&?). repeat split; congruence.
Qed.

Lemma units_loop_control t frame rw us v s s' r :
  for_each (unit_body' t frame rw) us v s = (s', r) → same_control s.1 s'.1.
Proof.
  revert v s. induction us as [|ut us IH]; intros v s; simpl.
  - intros [= <- _]. apply same_control_refl.
  - unfold bind. destruct (unit_body' _ _ _ _ _ _) as [s1 [v1|e]] eqn:Hb.
    + intros H. eapply same_control_trans; [by eapply unit_body_control|].
      by eapply IH.
    + intros [= <- _]. by eapply unit_body_control.
Qed.

Lemma frame_body_control i t frame rw dr s s' r :
  frame_body' i t frame rw dr s = (s', r) → same_control s.1 s'.1.
Proof.
  unfold frame_body, bind, on_fst, on_snd, modify, get, ret. simpl.
  destruct (for_each _ _ _ _) as [s1 [[]|e]] eqn:Hu;
    apply units_loop_control in Hu; simpl in Hu; [|by intros [= <- _]].
  assert (same_control s.1 s1.1) as Hs1 by done. clear Hu.
  destruct rw as [rw|]; simpl.
  - destruct (flush rw t frame s1.2) as [w2 [[]|e]]; simpl;
      [|by intros [= <- _]].
    destruct dr as [d|]; simpl; [|by intros [= <- _]].
    destruct (draw _ _ _ _ _) as [w3 [[]|e]]; by intros [= <- _].
  - destruct dr as [d|]; simpl; [|by intros [= <- _]].
    destruct (draw _ _ _ _ _) as [w3 [[]|e]]; by intros [= <- _].
Qed.

Lemma frame_loop_units i camera rw dr s s' r :
  frame_loop' i camera rw dr s = (s', r) →
  _unit_trackers s'.1 = _unit_trackers s.1.
Proof.
  revert i s. induction camera as [|[[t frame]|e] camera IH]; intros i s; simpl.
  - by intros [= <- _].
  - unfold bind, on_fst, get, ret, stop, modify.
    destruct (stops i); simpl.
    + by intros [= <- _].
    + destruct (_force_stop s.1); [by intros [= <- _]|].
      destruct (frame_body' _ _ _ _ _ _) as [s1 [[]|e]] eqn:Hb;
        apply frame_body_control in Hb as (Hu&_); simpl in Hu.
      * intros H. apply IH in H. congruence.
      * by intros [= <- _].
  - by intros [= <- _].
Qed.

(** Frames that went through without the flag being seen set are followed
    by the frames that come after them. *)
Lemma frame_loop_app i c1 c2 rw dr s s1 :
  frame_loop' i c1 rw dr s = (s1, Return tt) →
  _force_stop s1.1 = false →
  frame_loop' i (c1 ++ c2) rw dr s = frame_loop' (i + length c1) c2 rw dr s1.
Proof.
  revert i s. induction c1 as [|[[t frame]|e] c1 IH]; intros i s; simpl.
  - intros [= <-] _. by rewrite Nat.add_0_r.
  - unfold bind, on_fst, get, ret, stop, modify.
    destruct (stops i); simpl.
    + intros [= <-]. done.
    + destruct (_force_stop s.1) eqn:Hf; [intros [= <-]; simpl; congruence|].
      destruct (frame_body' _ _ _ _ _ _) as [s2 [[]|e]]; [|done].
      intros H1 H2. rewrite (IH _ _ H1 H2). f_equal. lia.
  - done.
Qed.

Lemma run_finally rw dr s : _is_running (run' rw dr s).1.1 = false.
Proof. unfold run. by destruct (bind _ _ s). Qed.

Lemma run_empty_camera rw dr m w :
  _camera m = [] →
  run' rw dr (m, w) = ((set_is_running false (set_is_running true m), w),
                       Return tt).
Proof.
  intros Hc. unfold run, bind, on_fst, modify, get. simpl. by rewrite Hc.
Qed.

Lemma run_cancelled rw dr m w t frame camera :
  _camera m = Return (t, frame) :: camera →
  _force_stop m = true ∨ stops 0 = true →
  run' rw dr (m, w) =
    ((set_is_running false (set_force_stop true (set_is_running true m)), w),
     Return tt).
Proof.
  intros Hc Hs. unfold run, bind, on_fst, modify, get. simpl. rewrite Hc. simpl.
  unfold bind, on_fst, get, stop, modify, ret.
  destruct (stops 0) eqn:H0; simpl; [done|].
  destruct Hs as [Hs|]; [|done]. rewrite Hs. simpl.
  destruct m; simpl in *. by subst.
Qed.

Lemma run_track_fails rw dr m w c1 t frame c2 us1 u us2 s1 s2 w' e :
  _camera m = c1 ++ Return (t, frame) :: c2 →
  _unit_trackers m = us1 ++ Some u :: us2 →
  frame_loop' 0 c1 rw dr (set_is_running true m, w) = (s1, Return tt) →
  _force_stop s1.1 = false →
  stops (length c1) = false →
  for_each (unit_body' t frame rw) us1 tt
    (set_frame (Z.of_nat (length c1)) t frame s1.1, s1.2) = (s2, Return tt) →
  track u t frame s2.2 = (w', Raise e) →
  run' rw dr (m, w) = ((set_is_running false s2.1, w'), Raise e).
Proof.
  destruct s1 as [m1 w1], s2 as [m2 w2]. simpl. intros Hc Hu H1 Hf Hs H2 Ht.
  assert (_unit_trackers m1 = us1 ++ Some u :: us2) as Hu1.
  { apply frame_loop_units in H1. simpl in H1. congruence. }
  assert (frame_body' (length c1) t frame rw dr (m1, w1) = ((m2, w'), Raise e))
    as Hb.
  { unfold frame_body. unfold bind at 1, on_fst at 1, modify at 1. simpl.
    unfold bind at 1, get at 1. simpl. rewrite Hu1.
    unfold bind at 1. rewrite for_each_app. unfold bind at 1. rewrite H2.
    simpl. unfold bind at 1. unfold unit_body, bind, on_snd. simpl.
    by rewrite Ht. }
  unfold run. unfold bind at 1. unfold on_fst at 1, modify at 1. simpl.
  unfold bind at 1, get at 1. simpl. rewrite Hc.
  rewrite (frame_loop_app _ _ _ _ _ _ _ H1 Hf). simpl.
  unfold bind at 1, on_fst at 1. rewrite Hs. unfold ret at 1. simpl.
  unfold bind at 1, get at 1. simpl. rewrite Hf.
  unfold bind at 1. by rewrite Hb.
Qed.

(** C7.  Whatever the camera, the units and the collaborators do,
    [_is_running] is false when [run] has returned or raised.  On a camera
    that yields no frame [run] returns with [_last_frame_idx] as it was.
    When [stop] was called before the first frame is looked at, [run]
    returns as well.  And when the frames before some frame went through
    without a stop, the units before some unit were tracked on that frame,
    and [track] of that unit raises [e], then [run] raises [e], again with
    [_is_running] false. *)
Theorem run_clears_is_running rw dr m w :
  _is_running (run' rw dr (m, w)).1.1 = false ∧
  (_camera m = [] →
   ∃ m', run' rw dr (m, w) = ((m', w), Return tt) ∧
         _last_frame_idx m' = _last_frame_idx m ∧ _is_running m' = false) ∧
  (∀ t frame camera,
     _camera m = Return (t, frame) :: camera →
     _force_stop m = true ∨ stops 0 = true →
     ∃ m', run' rw dr (m, w) = ((m', w), Return tt) ∧
           _last_frame_idx m' = _last_frame_idx m ∧ _is_running m' = false) ∧
  (∀ c1 t frame c2 us1 u us2 s1 s2 w' e,
     _camera m = c1 ++ Return (t, frame) :: c2 →
     _unit_trackers m = us1 ++ Some u :: us2 →
     frame_loop' 0 c1 rw dr (set_is_running true m, w) = (s1, Return tt) →
     _force_stop s1.1 = false →
     stops (length c1) = false →
     for_each (unit_body' t frame rw) us1 tt
       (set_frame (Z.of_nat (length c1)) t frame s1.1, s1.2)
       = (s2, Return tt) →
     track u t frame s2.2 = (w', Raise e) →
     ∃ m', run' rw dr (m, w) = ((m', w'), Raise e) ∧ _is_running m' = false).
Proof.
  split; [apply run_finally|]. split; [|split].
  - intros Hc. eexists. split; [by apply run_empty_camera|done].
  - intros t frame camera Hc Hs. eexists.
    split; [by eapply run_cancelled|done].
  - intros * Hc Hu H1 Hf Hs H2 Ht. eexists.
    split; [by eapply run_track_fails|done].
Qed.

(** C9.  [stop] returns [None], cannot raise, sets [_force_stop] and
    leaves every other attribute as it was. *)
Theorem stop_only_sets_force_stop m :
  ∃ m', stop m = (m', Return tt) ∧
        _force_stop m' = true ∧
        _last_positions m' = _last_positions m ∧
        _last_frame_idx m' = _last_frame_idx m ∧
        _last_time_stamp m' = _last_time_stamp m ∧
        _is_running m' = _is_running m ∧
        _camera m' = _camera m ∧
        _unit_trackers m' = _unit_trackers m ∧
        _frame_buffer m' = _frame_buffer m ∧
        _last_t m' = _last_t m.
Proof. eexists. split; [reflexivity|]. by repeat split. Qed.
End monitor_run.

Lemma run_clears_is_running_witness :
  ∃ m', monitor.run (ResultWriter := unit) (Drawer := unit)
          failing_track (λ _, ret [tt]) (λ _, 0%Z) (λ _ _ _ _, ret tt)
          (λ _ _ _, ret tt) (λ _ _ _ _, ret tt) (λ _, false) None None
          (two_frames, tt)
        = ((m', tt), Raise (OtherError "tracker")) ∧
        monitor._is_running m' = false.
Proof.
  destruct (run_clears_is_running (ResultWriter := unit) (Drawer := unit)
              failing_track (λ _, ret [tt]) (λ _, 0%Z) (λ _ _ _ _, ret tt)
              (λ _ _ _, ret tt) (λ _ _ _ _, ret tt) (λ _, false) None None
              two_frames tt) as (_ & _ & _ & H).
  eapply (H [Return (0%Z, tt)] 1%Z tt [] [Some unit_0] unit_1 []).
  - reflexivity.
  - reflexivity.
  - vm_compute. reflexivity.
  - reflexivity.
  - reflexivity.
  - vm_compute. reflexivity.
  - reflexivity.
Defined.

(** ** Python lists *)

Lemma py_index_lt n i k : py_index n i = Some k → k < n.
Proof. unfold py_index. repeat case_decide; intros [=]; lia. Qed.

Lemma py_index_None n i :
  py_index n i = None ↔ (i < - Z.of_nat n ∨ Z.of_nat n ≤ i)%Z.
Proof. unfold py_index. repeat case_decide; split; try done; lia. Qed.

Lemma py_index_of_nat n k : k < n → py_index n (Z.of_nat k) = Some k.
Proof.
  intros. unfold py_index. rewrite decide_True by lia. by rewrite Nat2Z.id.
Qed.

Lemma py_get_index {A} (l : list A) i k :
  py_index (length l) i = Some k → ∃ a, l !! k = Some a ∧ py_get l i = Return a.
Proof.
  intros Hi. unfold py_get. rewrite Hi.
  destruct (lookup_lt_is_Some_2 l k (py_index_lt _ _ _ Hi)) as [a Ha].
  exists a. by rewrite Ha.
Qed.

Lemma py_get_out {A} (l : list A) i :
  py_index (length l) i = None → py_get l i = Raise IndexError.
Proof. intros Hi. unfold py_get. by rewrite Hi. Qed.

Lemma py_set_index {A} (l : list A) i k a :
  py_index (length l) i = Some k → py_set l i a = Return (<[k := a]> l).
Proof. intros Hi. unfold py_set. by rewrite Hi. Qed.

(** ** Loops *)

(** A loop whose body keeps [I] on the elements that are [ok] runs through a
    list of such elements and keeps [I]; [I] also sees the elements done. *)
Lemma for_each_rule {St A V} (body : V → A → ST St V)
    (I : list A → V → St → Prop) (ok : A → Prop) :
  (∀ pre a v s, I pre v s → ok a →
     ∃ v' s', body v a s = (s', Return v') ∧ I (pre ++ [a]) v' s') →
  ∀ xs pre v s, I pre v s → Forall ok xs →
     ∃ v' s', for_each body xs v s = (s', Return v') ∧ I (pre ++ xs) v' s'.
Proof.
  intros Hstep. induction xs as [|a xs IH]; intros pre v s HI Hok; simpl.
  - exists v, s. by rewrite app_nil_r.
  - inversion_clear Hok as [|? ? Ha Hxs].
    destruct (Hstep _ _ _ _ HI Ha) as (v1 & s1 & Hb & HI1).
    destruct (IH _ _ _ HI1 Hxs) as (v2 & s2 & Hl & HI2).
    exists v2, s2. rewrite (bind_Return _ _ _ _ _ Hb).
    by rewrite <- app_assoc in HI2.
Qed.

(** And it raises [e] when it meets an element on which the body does. *)
Lemma for_each_raises {St A V} (body : V → A → ST St V)
    (I : list A → V → St → Prop) (ok bad : A → Prop) e :
  (∀ pre a v s, I pre v s → ok a →
     ∃ v' s', body v a s = (s', Return v') ∧ I (pre ++ [a]) v' s') →
  (∀ pre a v s, I pre v s → bad a → ∃ s', body v a s = (s', Raise e)) →
  ∀ xs pre v s, I pre v s → Forall (λ a, ok a ∨ bad a) xs → Exists bad xs →
     ∃ s', for_each body xs v s = (s', Raise e).
Proof.
  intros Hstep Hbad. induction xs as [|a xs IH]; intros pre v s HI Hall Hex.
  - by apply Exists_nil in Hex.
  - inversion_clear Hall as [|? ? Ha Hxs]. simpl.
    destruct Ha as [Ha|Ha].
    + destruct (Hstep _ _ _ _ HI Ha) as (v1 & s1 & Hb & HI1).
      rewrite (bind_Return _ _ _ _ _ Hb).
      apply Exists_cons in Hex as [Hex|Hex].
      * destruct (Hbad _ _ _ _ HI Hex) as (s2 & Hb2). congruence.
      * by eapply IH.
    + destruct (Hbad _ _ _ _ HI Ha) as (s1 & Hb). exists s1.
      by rewrite (bind_Raise _ _ _ _ _ Hb).
Qed.

(** ** Monitor.__init__ *)

Section resolver.
Import tracking_unit monitor.
Context {ROI : Type}.
Variables (rois : list ROI) (stimulators : list (option stim_ref)).
Hypothesis Hlen : length stimulators = length rois.

Abbreviation units_t := (list (option (TrackingUnit ROI))).
Implicit Types (units : units_t) (h : Heap) (u : TrackingUnit ROI).

(** The constructor of a unit. *)
Lemma init_eq (r : ROI) s tr h :
  tracking_unit.__init__ r s tr h =
    (mkHeap (S (next_tracker h))
       match s with
       | Some s' => <[s' := default (next_tracker h) tr]> (bound h)
       | None => bound h
       end,
     Return (mkTrackingUnit r s (next_tracker h))).
Proof. by destruct s. Qed.

Lemma wired_build units h k r s b :
  wired rois stimulators units h →
  rois !! k = Some r → stimulators !! k = Some s →
  wired rois stimulators
    (<[k := Some (mkTrackingUnit r s (next_tracker h))]> units)
    (mkHeap (S (next_tracker h)) b).
Proof.
  intros [Hl Hw] Hr Hs. split; [by rewrite length_insert|].
  intros k' u Hu. destruct (decide (k = k')) as [<-|Hne].
  - rewrite list_lookup_insert_eq in Hu
      by (rewrite Hl; by eapply lookup_lt_Some).
    simplify_eq. simpl. repeat split; auto with lia.
  - rewrite list_lookup_insert_ne in Hu by done.
    destruct (Hw _ _ Hu) as (?&?&?). simpl. repeat split; auto with lia.
Qed.

Lemma own_trackers_build units h k r s :
  wired rois stimulators units h → own_trackers units →
  own_trackers (<[k := Some (mkTrackingUnit r s (next_tracker h))]> units).
Proof.
  intros [Hl Hw] Hown k1 k2 u1 u2 H1 H2 Ht.
  destruct (decide (k1 = k2)) as [|Hne]; [done|exfalso].
  destruct (decide (k = k1)) as [<-|Hk1].
  - rewrite list_lookup_insert_ne in H2 by done.
    apply list_lookup_insert_Some in H1 as [(_&?&_)|(?&_)]; [|done].
    simplify_eq. destruct (Hw _ _ H2) as (_&_&?). simpl in *. lia.
  - rewrite list_lookup_insert_ne in H1 by done.
    destruct (decide (k = k2)) as [<-|Hk2].
    + apply list_lookup_insert_Some in H2 as [(_&?&_)|(?&_)]; [|done].
      simplify_eq. destruct (Hw _ _ H1) as (_&_&?). simpl in *. lia.
    + rewrite list_lookup_insert_ne in H2 by done. eauto.
Qed.

Lemma built_insert units k k' u :
  k < length units → built units k' ∨ k' = k → built (<[k := Some u]> units) k'.
Proof.
  intros Hk H. unfold built. destruct (decide (k = k')) as [<-|Hne].
  - exists u. by rewrite list_lookup_insert_eq.
  - rewrite list_lookup_insert_ne by done. by destruct H.
Qed.

Lemma built_insert_inv units k k' u :
  built (<[k := Some u]> units) k' → built units k' ∨ k' = k.
Proof.
  intros [u' Hu]. destruct (decide (k = k')) as [<-|Hne]; [by right|left].
  rewrite list_lookup_insert_ne in Hu by done. by exists u'.
Qed.

Lemma not_built units k :
  k < length units → ¬ built units k → units !! k = Some None.
Proof.
  intros Hk Hb. destruct (lookup_lt_is_Some_2 _ _ Hk) as [[u|] Hu]; [|done].
  destruct Hb. by exists u.
Qed.

(** The bodies of the three loops. *)
Lemma focal_body_built units h f k u :
  length units = length rois → index_of (length rois) f = Some k →
  units !! k = Some (Some u) →
  focal_body rois stimulators units f h = (h, Return units).
Proof.
  intros Hl Hk Hu. unfold focal_body, index_of in *. rewrite <- Hl in Hk.
  destruct (py_get_index _ _ _ Hk) as (ut & Hut & Hget).
  unfold bind, lift. rewrite Hget. by simplify_eq.
Qed.

Lemma focal_body_new units h f k :
  length units = length rois → index_of (length rois) f = Some k →
  units !! k = Some None →
  ∃ r s, rois !! k = Some r ∧ stimulators !! k = Some s ∧
    focal_body rois stimulators units f h =
      ((tracking_unit.__init__ r s None h).1,
       Return (<[k := Some (mkTrackingUnit r s (next_tracker h))]> units)).
Proof.
  intros Hl Hk Hu. unfold focal_body, index_of in *.
  destruct (py_get_index rois _ _ Hk) as (r & Hr & Hgr).
  rewrite <- Hlen in Hk.
  destruct (py_get_index stimulators _ _ Hk) as (s & Hs & Hgs).
  rewrite Hlen, <- Hl in Hk.
  destruct (py_get_index units _ _ Hk) as (ut & Hut & Hgu).
  exists r, s. split; [done|]. split; [done|].
  unfold bind at 1, lift at 1. rewrite Hgu. simplify_eq.
  unfold bind at 1, lift at 1. rewrite Hgr.
  unfold bind at 1, lift at 1. rewrite Hgs.
  unfold bind at 1. rewrite init_eq. unfold lift.
  by rewrite (py_set_index _ _ _ _ Hk).
Qed.

Lemma focal_body_out units h f :
  length units = length rois → index_of (length rois) f = None →
  focal_body rois stimulators units f h = (h, Raise IndexError).
Proof.
  intros Hl Hk. unfold focal_body, index_of in *. rewrite <- Hl in Hk.
  unfold bind, lift. by rewrite (py_get_out _ _ Hk).
Qed.

Lemma default_body_focal units i h :
  default_body rois stimulators units i h =
  focal_body rois stimulators units (Z.of_nat i + 1) h.
Proof.
  unfold default_body, focal_body.
  by replace (Z.of_nat i + 1 - 1)%Z with (Z.of_nat i) by lia.
Qed.

Lemma yoked_body_in units h y f ky kf focal :
  length units = length rois →
  index_of (length rois) y = Some ky → index_of (length rois) f = Some kf →
  units !! kf = Some (Some focal) →
  ∃ r s, rois !! ky = Some r ∧ stimulators !! ky = Some s ∧
    yoked_body rois stimulators units (y, f) h =
      ((tracking_unit.__init__ r s (Some (_tracker focal)) h).1,
       Return (<[ky := Some (mkTrackingUnit r s (next_tracker h))]> units)).
Proof.
  intros Hl Hy Hf Hu. unfold yoked_body, index_of in *.
  destruct (py_get_index rois _ _ Hy) as (r & Hr & Hgr).
  rewrite <- Hlen in Hy.
  destruct (py_get_index stimulators _ _ Hy) as (s & Hs & Hgs).
  rewrite Hlen, <- Hl in Hy. rewrite <- Hl in Hf.
  destruct (py_get_index units _ _ Hf) as (ut & Hut & Hgu).
  exists r, s. split; [done|]. split; [done|].
  unfold bind at 1, lift at 1. rewrite Hgr.
  unfold bind at 1, lift at 1. rewrite Hgs.
  unfold bind at 1, lift at 1. rewrite Hgu. simplify_eq.
  unfold bind at 1. rewrite init_eq. unfold lift.
  by rewrite (py_set_index _ _ _ _ Hy).
Qed.

Lemma yoked_body_out units h y f :
  index_of (length rois) y = None →
  yoked_body rois stimulators units (y, f) h = (h, Raise IndexError).
Proof.
  intros Hy. unfold yoked_body, index_of in *.
  unfold bind, lift. by rewrite (py_get_out _ _ Hy).
Qed.

Lemma index_of_succ n i : i < n → index_of n (Z.of_nat i + 1) = Some i.
Proof.
  intros. unfold index_of.
  replace (Z.of_nat i + 1 - 1)%Z with (Z.of_nat i) by lia.
  by apply py_index_of_nat.
Qed.

Lemma index_of_lt n id k : index_of n id = Some k → k < n.
Proof. apply py_index_lt. Qed.

(** One turn of the first loop. *)
Lemma focal_step pre f units h :
  focal_inv rois stimulators pre units h →
  is_Some (index_of (length rois) f) →
  ∃ units' h', focal_body rois stimulators units f h = (h', Return units') ∧
               focal_inv rois stimulators (pre ++ [f]) units' h'.
Proof.
  intros (Hw & Hown & Hfoc & Honly) [k Hk].
  pose proof Hw as [Hl _]. pose proof (index_of_lt _ _ _ Hk) as Hkn.
  destruct (lookup_lt_is_Some_2 units k) as [[u|] Hu]; [lia| |].
  - exists units, h. split; [by eapply focal_body_built|].
    split; [done|]. split; [done|]. split.
    + intros f' k' [Hf'|Hf']%elem_of_app Hk'; [by eapply Hfoc|].
      apply list_elem_of_singleton in Hf' as ->. simplify_eq. by exists u.
    + intros k' Hb. destruct (Honly _ Hb) as (f' & ? & ?).
      exists f'. split; [|done]. apply elem_of_app. by left.
  - destruct (focal_body_new units h f k Hl Hk Hu) as (r & s & Hr & Hs & ->).
    rewrite init_eq. simpl. do 2 eexists. split; [done|].
    split; [by apply wired_build|].
    split; [by eapply own_trackers_build|]. split.
    + intros f' k' [Hf'|Hf']%elem_of_app Hk'.
      * apply built_insert; [lia|]. left. by eapply Hfoc.
      * apply list_elem_of_singleton in Hf' as ->. simplify_eq.
        apply built_insert; [lia|]. by right.
    + intros k' [Hb| ->]%built_insert_inv.
      * destruct (Honly _ Hb) as (f' & ? & ?).
        exists f'. split; [|done]. apply elem_of_app. by left.
      * exists f. split; [|done]. apply elem_of_app. right.
        by apply list_elem_of_singleton.
Qed.

(** One turn of the second loop. *)
Lemma yoked_step focals pre yf units h :
  yoked_inv rois stimulators focals pre units h →
  is_Some (index_of (length rois) yf.1) ∧
    is_Some (index_of (length rois) yf.2) ∧ yf.2 ∈ focals →
  ∃ units' h', yoked_body rois stimulators units yf h = (h', Return units') ∧
               yoked_inv rois stimulators focals (pre ++ [yf]) units' h'.
Proof.
  destruct yf as [y f]. cbn [fst snd].
  intros (Hw & Hown & Hfoc & Honly) ([ky Hy] & [kf Hf] & Hin).
  pose proof Hw as [Hl _]. pose proof (index_of_lt _ _ _ Hy) as Hkn.
  destruct (Hfoc _ _ Hin Hf) as [focal Hfocal].
  destruct (yoked_body_in units h y f ky kf focal Hl Hy Hf Hfocal)
    as (r & s & Hr & Hs & ->).
  rewrite init_eq. simpl. do 2 eexists. split; [done|].
  split; [by apply wired_build|].
  split; [by eapply own_trackers_build|]. split.
  - intros f' k' Hf' Hk'. apply built_insert; [lia|]. left. by eapply Hfoc.
  - intros k' [Hb| ->]%built_insert_inv.
    + destruct (Honly _ Hb) as (id & [?|?] & ?); exists id; (split; [|done]).
      * by left.
      * right. rewrite fmap_app. apply elem_of_app. by left.
    + exists y. split; [|done]. right. rewrite fmap_app. apply elem_of_app.
      right. simpl. by apply list_elem_of_singleton.
Qed.

(** One turn of the third loop. *)
Lemma default_step units0 pre i units h :
  default_inv rois stimulators units0 pre units h →
  i < length rois →
  ∃ units' h', default_body rois stimulators units i h = (h', Return units') ∧
               default_inv rois stimulators units0 (pre ++ [i]) units' h'.
Proof.
  intros (Hw & Hown & Hdone & Hobs) Hi.
  pose proof Hw as [Hl _]. pose proof (index_of_succ _ _ Hi) as Hk.
  rewrite default_body_focal.
  destruct (lookup_lt_is_Some_2 units i) as [[u|] Hu]; [lia| |].
  - exists units, h. split; [by eapply focal_body_built|].
    split; [done|]. split; [done|]. split.
    + intros i' [Hi'|Hi']%elem_of_app; [by apply Hdone|].
      apply list_elem_of_singleton in Hi' as ->. by exists u.
    + intros i' s H0 Hs Halias.
      destruct (Hobs i' s H0 Hs Halias) as [[Hn Hpre]|Hb]; [left|by right].
      split; [done|]. intros [?|Hi']%elem_of_app; [done|].
      apply list_elem_of_singleton in Hi' as ->. congruence.
  - destruct (focal_body_new units h _ i Hl Hk Hu) as (r & s & Hr & Hs & ->).
    rewrite init_eq. simpl. do 2 eexists. split; [done|].
    split; [by apply wired_build|].
    split; [by eapply own_trackers_build|]. split.
    + intros i' [Hi'|Hi']%elem_of_app.
      * apply built_insert; [lia|]. left. by apply Hdone.
      * apply list_elem_of_singleton in Hi' as ->.
        apply built_insert; [lia|]. by right.
    + intros i' s' H0 Hs' Halias. simpl.
      destruct (decide (i' = i)) as [->|Hne].
      * right. eexists. rewrite list_lookup_insert_eq by lia.
        split; [done|]. simplify_eq. simpl. by rewrite lookup_insert_eq.
      * rewrite list_lookup_insert_ne by done.
        destruct (Hobs i' s' H0 Hs' Halias) as [[Hn Hpre]|(u & Hu' & Hb)].
        -- left. split; [done|]. intros [?|Hi']%elem_of_app; [done|].
           by apply list_elem_of_singleton in Hi'.
        -- right. exists u. split; [done|].
           destruct s as [s|]; [|done].
           rewrite lookup_insert_ne; [done|]. intros ->.
           specialize (Halias _ Hs). lia.
Qed.

(** A turn of the second loop for the pair [(y0, f0)] makes the stimulator
    of the yoked index observe the unit of the focal index; the turns for
    pairs with another yoked index keep it so, when no pair has the focal
    index for its yoked index and the stimulator stands at one index. *)
Lemma yoked_step_observes focals y0 f0 k0 kf s0 pre yf units h :
  index_of (length rois) y0 = Some k0 → index_of (length rois) f0 = Some kf →
  stimulators !! k0 = Some (Some s0) →
  (∀ j, stimulators !! j = Some (Some s0) → j = k0) →
  yoked_inv rois stimulators focals pre units h ∧
    ((y0, f0) ∈ pre → observes units h k0 kf s0) →
  is_Some (index_of (length rois) yf.1) ∧
    is_Some (index_of (length rois) yf.2) ∧ yf.2 ∈ focals ∧ f0 ∈ focals ∧
    (index_of (length rois) yf.1 = Some k0 → yf = (y0, f0)) ∧
    index_of (length rois) yf.1 ≠ Some kf →
  ∃ units' h', yoked_body rois stimulators units yf h = (h', Return units') ∧
    yoked_inv rois stimulators focals (pre ++ [yf]) units' h' ∧
    ((y0, f0) ∈ pre ++ [yf] → observes units' h' k0 kf s0).
Proof.
  intros Hk0 Hkf Hs0 Halias [Hinv Hobs] (Hy & Hf & Hin & Hin0 & Honly & Hnf).
  destruct (yoked_step focals pre yf units h Hinv (conj Hy (conj Hf Hin)))
    as (units' & h' & Hbody & Hinv').
  exists units', h'. split; [done|]. split; [done|].
  destruct yf as [y f]. cbn [fst snd] in *.
  destruct Hy as [ky Hy], Hf as [kf' Hf].
  destruct Hinv as ([Hl Hw] & _ & Hfoc & _).
  destruct (Hfoc _ _ Hin Hf) as [focal Hfocal].
  destruct (yoked_body_in units h y f ky kf' focal Hl Hy Hf Hfocal)
    as (r & s & Hr & Hs & Heq).
  rewrite Heq, init_eq in Hbody. simplify_eq. simpl.
  pose proof (index_of_lt _ _ _ Hy) as Hky.
  assert (ky ≠ kf) as Hne by congruence.
  destruct (decide (ky = k0)) as [->|Hk].
  - intros _. pose proof (Honly Hy) as Heq0. injection Heq0 as -> ->.
    simplify_eq.
    destruct (Hw _ _ Hfocal) as (_ & _ & Hlt).
    exists (mkTrackingUnit r (Some s0) (next_tracker h)), focal.
    rewrite list_lookup_insert_eq by lia.
    rewrite list_lookup_insert_ne by done. simpl.
    rewrite lookup_insert_eq. repeat split; try done. lia.
  - intros [Hpre|Hhere%list_elem_of_singleton]%elem_of_app;
      [|simplify_eq].
    destruct (Hobs Hpre) as (uy & uf & Huy & Huf & Hst & Hb & Hneq).
    exists uy, uf. rewrite !list_lookup_insert_ne by done.
    repeat split; try done. destruct s as [s|]; [|done]. simpl.
    rewrite lookup_insert_ne; [done|]. intros ->. by apply Halias in Hs.
Qed.

(** The third loop leaves what a yoked stimulator observes as it is. *)
Lemma default_step_observes units0 k0 kf s0 pre i units h :
  (∀ j, stimulators !! j = Some (Some s0) → j = k0) →
  default_inv rois stimulators units0 pre units h ∧ observes units h k0 kf s0 →
  i < length rois →
  ∃ units' h', default_body rois stimulators units i h = (h', Return units') ∧
    default_inv rois stimulators units0 (pre ++ [i]) units' h' ∧
    observes units' h' k0 kf s0.
Proof.
  intros Halias [Hinv Hobs] Hi.
  destruct (default_step units0 pre i units h Hinv Hi)
    as (units' & h' & Hbody & Hinv').
  exists units', h'. split; [done|]. split; [done|].
  destruct Hinv as ([Hl Hw] & _). rewrite default_body_focal in Hbody.
  pose proof (index_of_succ _ _ Hi) as Hk.
  destruct Hobs as (uy & uf & Huy & Huf & Hst & Hb & Hneq).
  destruct (lookup_lt_is_Some_2 units i) as [[u|] Hu]; [lia| |].
  - rewrite (focal_body_built units h _ i u Hl Hk Hu) in Hbody.
    simplify_eq. by exists uy, uf.
  - destruct (focal_body_new units h _ i Hl Hk Hu) as (r & s & Hr & Hs & Heq).
    rewrite Heq, init_eq in Hbody. simplify_eq. simpl.
    exists uy, uf.
    rewrite !list_lookup_insert_ne by (intros ->; congruence).
    repeat split; try done. destruct s as [s|]; [|done]. simpl.
    rewrite lookup_insert_ne; [done|]. intros ->.
    apply Halias in Hs as ->. congruence.
Qed.

Lemma assert_trackers_ok units h :
  (∀ i, i < length units → built units i) →
  assert_trackers units h = (h, Return tt).
Proof.
  intros Hb. unfold assert_trackers.
  rewrite (proj2 (forallb_forall _ units)); [done|].
  intros ut [i Hi]%list_elem_of_In%list_elem_of_lookup.
  destruct (Hb i (lookup_lt_Some _ _ _ Hi)) as [u Hu].
  apply bool_decide_eq_true. exists u. congruence.
Qed.

Lemma focal_inv_start h :
  focal_inv rois stimulators [] ((λ _, None) <$> rois) h.
Proof.
  assert (∀ k, ¬ built ((λ _ : ROI, @None (TrackingUnit ROI)) <$> rois) k)
    as Hnone.
  { intros k [u Hu]. rewrite list_lookup_fmap in Hu.
    by destruct (rois !! k). }
  split; [|split; [|split]].
  - split; [by rewrite length_fmap|]. intros k u Hu. destruct (Hnone k).
    by exists u.
  - intros k k' u u' Hu. destruct (Hnone k). by exists u.
  - intros f k Hf. by apply elem_of_nil in Hf.
  - intros k Hb. by destruct (Hnone k).
Qed.

(** The ids of a mapping all select an index: the resolver returns. *)
Lemma resolve_yoke_ok yoke h :
  Forall (λ yf, is_Some (index_of (length rois) yf.1) ∧
                is_Some (index_of (length rois) yf.2)) yoke →
  ∃ units h', resolve_yoke rois stimulators yoke h = (h', Return units) ∧
    wired rois stimulators units h' ∧ own_trackers units ∧
    (∀ i, i < length rois → built units i) ∧
    (∀ i s, i < length rois →
       (∀ yf, yf ∈ yoke → index_of (length rois) yf.1 ≠ Some i ∧
                          index_of (length rois) yf.2 ≠ Some i) →
       stimulators !! i = Some (Some s) →
       (∀ j, stimulators !! j = Some (Some s) → j = i) →
       ∃ u, units !! i = Some (Some u) ∧ bound h' !! s = Some (_tracker u)).
Proof.
  intros Hval.
  destruct (for_each_rule (focal_body rois stimulators)
              (focal_inv rois stimulators)
              (λ f, is_Some (index_of (length rois) f))
              (λ pre f units h, focal_step pre f units h)
              (yoke.*2) [] _ h (focal_inv_start h))
    as (units1 & h1 & Hloop1 & Hw1 & Hown1 & Hfoc1 & Honly1).
  { apply Forall_fmap. eapply Forall_impl; [exact Hval|]. by intros ? [_ ?]. }
  destruct (for_each_rule (yoked_body rois stimulators)
              (yoked_inv rois stimulators (yoke.*2))
              (λ yf, is_Some (index_of (length rois) yf.1) ∧
                     is_Some (index_of (length rois) yf.2) ∧
                     yf.2 ∈ yoke.*2)
              (λ pre yf units h, yoked_step (yoke.*2) pre yf units h)
              yoke [] units1 h1)
    as (units2 & h2 & Hloop2 & Hw2 & Hown2 & Hfoc2 & Honly2).
  { split; [done|]. split; [done|]. split; [done|].
    intros k Hb. destruct (Honly1 _ Hb) as (f & ? & ?). exists f. auto. }
  { apply Forall_forall. intros yf Hyf.
    destruct (proj1 (Forall_forall _ _) Hval _ Hyf) as [? ?].
    split; [done|]. split; [done|]. by apply list_elem_of_fmap_2. }
  pose proof Hw2 as [Hl2 _].
  destruct (for_each_rule (default_body rois stimulators)
              (default_inv rois stimulators units2)
              (λ i, i < length rois)
              (λ pre i units h, default_step units2 pre i units h)
              (seq 0 (length units2)) [] units2 h2)
    as (units3 & h3 & Hloop3 & Hw3 & Hown3 & Hdone3 & Hobs3).
  { split; [done|]. split; [done|]. split.
    - intros i Hi. by apply elem_of_nil in Hi.
    - intros i s H0 _ _. left. split; [done|]. apply not_elem_of_nil. }
  { apply Forall_forall. intros i Hi%elem_of_seq. lia. }
  simpl in *. pose proof Hw3 as [Hl3 _].
  assert (∀ i, i < length rois → built units3 i) as Hall.
  { intros i Hi. apply Hdone3, elem_of_seq. lia. }
  exists units3, h3. split; [|split; [done|split; [done|split; [done|]]]].
  - unfold resolve_yoke.
    rewrite (bind_Return _ _ _ _ _ Hloop1), (bind_Return _ _ _ _ _ Hloop2),
      (bind_Return _ _ _ _ _ Hloop3).
    assert (∀ i, i < length units3 → built units3 i) as Hall3
      by (intros i Hi; apply Hall; lia).
    by rewrite (bind_Return _ _ _ _ _ (assert_trackers_ok units3 h3 Hall3)).
  - intros i s Hi Hfree Hs Halias.
    assert (units2 !! i = Some None) as H0.
    { apply not_built; [lia|]. intros Hb.
      destruct (Honly2 _ Hb) as (id & [Hid|Hid] & Hk).
      - apply list_elem_of_fmap in Hid as (yf & -> & Hyf).
        by destruct (Hfree _ Hyf).
      - apply list_elem_of_fmap in Hid as (yf & -> & Hyf).
        by destruct (Hfree _ Hyf). }
    destruct (Hobs3 i s H0 Hs Halias) as [[_ Hpre]|?]; [|done].
    destruct Hpre. apply elem_of_seq. lia.
Qed.

(** A pair whose yoked index no other pair has, and whose focal index is the
    yoked index of no pair: its stimulator observes the focal unit. *)
Lemma resolve_yoke_observes yoke h y0 f0 k0 kf s0 :
  Forall (λ yf, is_Some (index_of (length rois) yf.1) ∧
                is_Some (index_of (length rois) yf.2)) yoke →
  (y0, f0) ∈ yoke →
  index_of (length rois) y0 = Some k0 → index_of (length rois) f0 = Some kf →
  stimulators !! k0 = Some (Some s0) →
  (∀ j, stimulators !! j = Some (Some s0) → j = k0) →
  (∀ yf, yf ∈ yoke → index_of (length rois) yf.1 = Some k0 → yf = (y0, f0)) →
  (∀ yf, yf ∈ yoke → index_of (length rois) yf.1 ≠ Some kf) →
  ∃ units h', resolve_yoke rois stimulators yoke h = (h', Return units) ∧
    wired rois stimulators units h' ∧ observes units h' k0 kf s0.
Proof.
  intros Hval Hin Hk0 Hkf Hs0 Halias Honly Hnf.
  destruct (for_each_rule (focal_body rois stimulators)
              (focal_inv rois stimulators)
              (λ f, is_Some (index_of (length rois) f))
              (λ pre f units h, focal_step pre f units h)
              (yoke.*2) [] _ h (focal_inv_start h))
    as (units1 & h1 & Hloop1 & Hw1 & Hown1 & Hfoc1 & Honly1).
  { apply Forall_fmap. eapply Forall_impl; [exact Hval|]. by intros ? [_ ?]. }
  destruct (for_each_rule (yoked_body rois stimulators)
              (λ pre units h,
                 yoked_inv rois stimulators (yoke.*2) pre units h ∧
                 ((y0, f0) ∈ pre → observes units h k0 kf s0))
              (λ yf, is_Some (index_of (length rois) yf.1) ∧
                     is_Some (index_of (length rois) yf.2) ∧
                     yf.2 ∈ yoke.*2 ∧ f0 ∈ yoke.*2 ∧
                     (index_of (length rois) yf.1 = Some k0 → yf = (y0, f0)) ∧
                     index_of (length rois) yf.1 ≠ Some kf)
              (λ pre yf units h,
                 yoked_step_observes (yoke.*2) y0 f0 k0 kf s0 pre yf units h
                   Hk0 Hkf Hs0 Halias)
              yoke [] units1 h1)
    as (units2 & h2 & Hloop2 & Hinv2 & Hobs2).
  { split; [|by intros ?%elem_of_nil].
    split; [done|]. split; [done|]. split; [done|].
    intros k Hb. destruct (Honly1 _ Hb) as (f & ? & ?). exists f. auto. }
  { apply Forall_forall. intros yf Hyf.
    destruct (proj1 (Forall_forall _ _) Hval _ Hyf) as [? ?].
    split; [done|]. split; [done|].
    split; [by apply list_elem_of_fmap_2|].
    split; [by apply (list_elem_of_fmap_2 snd _ (y0, f0))|]. auto. }
  pose proof Hinv2 as ([Hl2 _] & Hown2 & _).
  destruct (for_each_rule (default_body rois stimulators)
              (λ pre units h,
                 default_inv rois stimulators units2 pre units h ∧
                 observes units h k0 kf s0)
              (λ i, i < length rois)
              (λ pre i units h,
                 default_step_observes units2 k0 kf s0 pre i units h Halias)
              (seq 0 (length units2)) [] units2 h2)
    as (units3 & h3 & Hloop3 & (Hw3 & Hown3 & Hdone3 & _) & Hobs3).
  { split; [|by apply Hobs2].
    destruct Hinv2 as (Hw2 & _). split; [done|]. split; [done|]. split.
    - intros i Hi. by apply elem_of_nil in Hi.
    - intros i s Hnone _ _. left. split; [done|]. apply not_elem_of_nil. }
  { apply Forall_forall. intros i Hi%elem_of_seq. lia. }
  simpl in *. pose proof Hw3 as [Hl3 _].
  assert (∀ i, i < length units3 → built units3 i) as Hall3.
  { intros i Hi. apply Hdone3, elem_of_seq. lia. }
  exists units3, h3. split; [|done].
  unfold resolve_yoke.
  rewrite (bind_Return _ _ _ _ _ Hloop1), (bind_Return _ _ _ _ _ Hloop2),
    (bind_Return _ _ _ _ _ Hloop3).
  by rewrite (bind_Return _ _ _ _ _ (assert_trackers_ok units3 h3 Hall3)).
Qed.

(** Some id of a mapping selects no index: the resolver raises. *)
Lemma resolve_yoke_out yoke h :
  Exists (λ yf, index_of (length rois) yf.1 = None ∨
                index_of (length rois) yf.2 = None) yoke →
  ∃ h', resolve_yoke rois stimulators yoke h = (h', Raise IndexError).
Proof.
  intros Hex. unfold resolve_yoke.
  destruct (decide (Forall (λ f, is_Some (index_of (length rois) f))
                      (yoke.*2))) as [Hfoc|Hfoc].
  - destruct (for_each_rule (focal_body rois stimulators)
                (focal_inv rois stimulators)
                (λ f, is_Some (index_of (length rois) f))
                (λ pre f units h, focal_step pre f units h)
                (yoke.*2) [] _ h (focal_inv_start h) Hfoc)
      as (units1 & h1 & Hloop1 & Hw1 & Hown1 & Hfoc1 & Honly1).
    rewrite (bind_Return _ _ _ _ _ Hloop1).
    destruct (for_each_raises (yoked_body rois stimulators)
                (yoked_inv rois stimulators (yoke.*2))
                (λ yf, is_Some (index_of (length rois) yf.1) ∧
                       is_Some (index_of (length rois) yf.2) ∧
                       yf.2 ∈ yoke.*2)
                (λ yf, index_of (length rois) yf.1 = None) IndexError
                (λ pre yf units h, yoked_step (yoke.*2) pre yf units h))
      with (xs := yoke) (pre := @nil (Z * Z)) (v := units1) (s := h1)
      as (h2 & Hloop2).
    + intros pre [y f] units h' _ Hy. exists h'. by apply yoked_body_out.
    + split; [done|]. split; [done|]. split; [done|].
      intros k Hb. destruct (Honly1 _ Hb) as (f & ? & ?). exists f. auto.
    + apply Forall_forall. intros yf Hyf.
      destruct (index_of (length rois) yf.1) eqn:Hy; [left|by right].
      split; [done|]. split; [|by apply list_elem_of_fmap_2].
      apply (proj1 (Forall_forall _ _) Hfoc). by apply list_elem_of_fmap_2.
    + apply Exists_exists in Hex as (yf & Hyf & [Hy|Hf]);
        apply Exists_exists; exists yf; (split; [done|]); [done|].
      assert (is_Some (index_of (length rois) yf.2)) as [k Hk].
      { apply (proj1 (Forall_forall _ _) Hfoc).
        by apply list_elem_of_fmap_2. }
      congruence.
    + exists h2. by rewrite (bind_Raise _ _ _ _ _ Hloop2).
  - destruct (for_each_raises (focal_body rois stimulators)
                (focal_inv rois stimulators)
                (λ f, is_Some (index_of (length rois) f))
                (λ f, index_of (length rois) f = None) IndexError
                (λ pre f units h, focal_step pre f units h))
      with (xs := yoke.*2) (pre := @nil Z)
           (v := (λ _ : ROI, @None (TrackingUnit ROI)) <$> rois) (s := h)
      as (h1 & Hloop1).
    + intros pre f units h' [[Hl _] _] Hf. exists h'.
      by apply focal_body_out.
    + apply focal_inv_start.
    + apply Forall_forall. intros f _.
      destruct (index_of (length rois) f); [left; eauto|by right].
    + apply not_Forall_Exists in Hfoc; [|apply _].
      eapply Exists_impl; [exact Hfoc|]. simpl. intros f Hf.
      destruct (index_of (length rois) f); [destruct Hf; eauto|done].
    + exists h1. by rewrite (bind_Raise _ _ _ _ _ Hloop1).
Qed.
End resolver.

Section monitor_init.
Import tracking_unit monitor.
Context {ROI Frame Position : Type}.
Implicit Types (rois : list ROI) (stimulators : list (option stim_ref))
  (yoke : list (Z * Z)) (camera : list (result (Z * Frame))) (h : Heap).

Lemma index_of_valid n id :
  (1 ≤ id ≤ Z.of_nat n)%Z → index_of n id = Some (Z.to_nat (id - 1)).
Proof. intros. unfold index_of, py_index. by rewrite decide_True by lia. Qed.

Lemma index_of_None n id :
  index_of n id = None ↔ (id ≤ - Z.of_nat n ∨ Z.of_nat n < id)%Z.
Proof. unfold index_of. rewrite py_index_None. lia. Qed.

(** C2.  With as many stimulators as ROIs and a mapping whose ids all are
    ids of ROIs ([1] to [n]), the constructor returns a monitor with one
    unit for each index [0] to [n-1], none of them [None]; the unit of an
    index holds the ROI and the stimulator of that index and a tracker no
    other unit has.  At an index that is neither focal nor yoked, a
    stimulator that stands at no other index is bound to the tracker of
    its own unit, as it is without a mapping. *)
Theorem init_resolves_every_roi camera rois stimulators yoke h :
  length stimulators = length rois →
  (∀ y f, (y, f) ∈ yoke → (1 ≤ y ≤ Z.of_nat (length rois))%Z ∧
                          (1 ≤ f ≤ Z.of_nat (length rois))%Z) →
  ∃ h' (m : Monitor ROI Frame Position),
    monitor.__init__ camera (Some rois) (Some stimulators) (Some yoke) h
      = (h', Return m) ∧
    length (_unit_trackers m) = length rois ∧
    (∀ i, i < length rois →
       ∃ u, _unit_trackers m !! i = Some (Some u) ∧
            rois !! i = Some (_roi u) ∧
            stimulators !! i = Some (_stimulator u)) ∧
    (∀ i j u u', _unit_trackers m !! i = Some (Some u) →
                 _unit_trackers m !! j = Some (Some u') →
                 _tracker u = _tracker u' → i = j) ∧
    (∀ i s, i < length rois →
       (∀ y f, (y, f) ∈ yoke → y ≠ (Z.of_nat i + 1)%Z ∧
                               f ≠ (Z.of_nat i + 1)%Z) →
       stimulators !! i = Some (Some s) →
       (∀ j, stimulators !! j = Some (Some s) → j = i) →
       ∃ u, _unit_trackers m !! i = Some (Some u) ∧
            _stimulator u = Some s ∧
            bound h' !! s = Some (_tracker u)).
Proof.
  intros Hlen Hval.
  destruct (resolve_yoke_ok rois stimulators Hlen yoke h)
    as (units & h' & Hres & [Hl Hw] & Hown & Hall & Hobs).
  { apply Forall_forall. intros [y f] Hyf. destruct (Hval _ _ Hyf).
    simpl. by rewrite !index_of_valid. }
  exists h', (new_monitor camera units). split; [|split; [done|split; [|split]]].
  - unfold monitor.__init__. rewrite decide_True by done.
    by rewrite (bind_Return _ _ _ _ _ Hres).
  - intros i Hi. destruct (Hall i Hi) as [u Hu]. exists u.
    by destruct (Hw _ _ Hu) as (?&?&_).
  - exact Hown.
  - intros i s Hi Hfree Hs Halias.
    destruct (Hobs i s Hi) as (u & Hu & Hb); [|done|done|].
    + intros [y f] Hyf. destruct (Hval _ _ Hyf), (Hfree _ _ Hyf). simpl.
      rewrite !index_of_valid by done. split; intros [=]; lia.
    + exists u. split; [done|]. split; [|done].
      destruct (Hw _ _ Hu) as (_&?&_). congruence.
Qed.

(** X4.  Where C1 holds.  In a mapping whose ids are ids of ROIs, take a pair
    [(y0, f0)] such that [y0] is yoked to [f0] only and [f0] is not itself
    yoked, the stimulator of ROI [y0] standing at no other index.  The unit
    of ROI [y0] holds the ROI and the stimulator of its index, and this
    stimulator is bound to the tracker of the unit of ROI [f0], which is
    not the tracker of the unit of ROI [y0]. *)
Lemma yoked_stimulator_observes_focal camera rois stimulators yoke h
    y0 f0 s0 :
  length stimulators = length rois →
  (∀ y f, (y, f) ∈ yoke → (1 ≤ y ≤ Z.of_nat (length rois))%Z ∧
                          (1 ≤ f ≤ Z.of_nat (length rois))%Z) →
  (y0, f0) ∈ yoke →
  (∀ f, (y0, f) ∈ yoke → f = f0) →
  (∀ y f, (y, f) ∈ yoke → y ≠ f0) →
  stimulators !! Z.to_nat (y0 - 1) = Some (Some s0) →
  (∀ j, stimulators !! j = Some (Some s0) → j = Z.to_nat (y0 - 1)) →
  ∃ h' (m : Monitor ROI Frame Position) uy uf,
    monitor.__init__ camera (Some rois) (Some stimulators) (Some yoke) h
      = (h', Return m) ∧
    _unit_trackers m !! Z.to_nat (y0 - 1) = Some (Some uy) ∧
    _unit_trackers m !! Z.to_nat (f0 - 1) = Some (Some uf) ∧
    rois !! Z.to_nat (y0 - 1) = Some (_roi uy) ∧
    _stimulator uy = Some s0 ∧
    bound h' !! s0 = Some (_tracker uf) ∧
    _tracker uf ≠ _tracker uy.
Proof.
  intros Hlen Hval Hin Honly Hnf Hs0 Halias.
  destruct (Hval _ _ Hin) as [Hy0 Hf0].
  destruct (resolve_yoke_observes rois stimulators Hlen yoke h y0 f0
              (Z.to_nat (y0 - 1)) (Z.to_nat (f0 - 1)) s0)
    as (units & h' & Hres & [_ Hw] & uy & uf & Huy & Huf & Hst & Hb & Hne);
    try done.
  - apply Forall_forall. intros [y f] Hyf. destruct (Hval _ _ Hyf).
    simpl. by rewrite !index_of_valid.
  - by apply index_of_valid.
  - by apply index_of_valid.
  - intros [y f] Hyf. destruct (Hval _ _ Hyf). simpl.
    rewrite index_of_valid by done. intros [= Heq].
    assert (y = y0) as -> by lia. by rewrite (Honly _ Hyf).
  - intros [y f] Hyf. destruct (Hval _ _ Hyf). simpl.
    rewrite index_of_valid by done. intros [= Heq].
    apply (Hnf _ _ Hyf). lia.
  - exists h', (new_monitor camera units), uy, uf.
    split; [|by destruct (Hw _ _ Huy) as (?&_)].
    unfold monitor.__init__. rewrite decide_True by done.
    by rewrite (bind_Return _ _ _ _ _ Hres).
Qed.

(** C3, amended.  With as many stimulators as ROIs, a mapping one of
    whose ids is greater than [n], or is [-n] or less, makes the
    constructor raise [IndexError]: no monitor is returned. *)
Theorem init_rejects_id_out_of_range camera rois stimulators yoke h :
  length stimulators = length rois →
  (∃ y f, (y, f) ∈ yoke ∧
     ((y ≤ - Z.of_nat (length rois) ∨ Z.of_nat (length rois) < y)%Z ∨
      (f ≤ - Z.of_nat (length rois) ∨ Z.of_nat (length rois) < f)%Z)) →
  ∃ h', monitor.__init__ (Position := Position) camera (Some rois)
          (Some stimulators) (Some yoke) h = (h', Raise IndexError).
Proof.
  intros Hlen (y & f & Hyf & Hout).
  destruct (resolve_yoke_out rois stimulators Hlen yoke h) as (h' & Hres).
  { apply Exists_exists. exists (y, f). split; [done|]. simpl.
    by rewrite !index_of_None. }
  exists h'. unfold monitor.__init__. rewrite decide_True by done.
  by rewrite (bind_Raise _ _ _ _ _ Hres).
Qed.

(** C8.  With a list of stimulators that has not the length of the list
    of ROIs the constructor raises [ValueError], whatever the mapping, and
    the store is as it was: no tracker was created, no stimulator bound. *)
Theorem init_rejects_count_mismatch camera rois stimulators
    (mapping : option (list (Z * Z))) h :
  length stimulators ≠ length rois →
  monitor.__init__ (Position := Position) camera (Some rois)
    (Some stimulators) mapping h = (h, Raise ValueError).
Proof. intros Hlen. unfold monitor.__init__. by rewrite decide_False. Qed.
End monitor_init.

Lemma init_resolves_every_roi_witness :
  ∃ h' (m : monitor.Monitor string unit unit),
    monitor.__init__ no_frame (Some three_rois) (Some three_stimulators)
      (Some [(2, 1)]%Z) empty_heap = (h', Return m) ∧
    length (monitor._unit_trackers m) = 3.
Proof.
  destruct (init_resolves_every_roi (Position := unit) no_frame three_rois
              three_stimulators [(2, 1)]%Z empty_heap)
    as (h' & m & H & Hl & _).
  - reflexivity.
  - intros y f [[= -> ->]|[]%elem_of_nil]%elem_of_cons. simpl. lia.
  - by exists h', m.
Defined.

Lemma init_rejects_id_out_of_range_witness :
  ∃ h', monitor.__init__ (Position := unit) no_frame (Some three_rois)
          (Some three_stimulators) (Some [(4, 1)]%Z) empty_heap
        = (h', Raise IndexError).
Proof.
  apply init_rejects_id_out_of_range; [reflexivity|].
  exists 4%Z, 1%Z. split; [apply list_elem_of_here|]. simpl. lia.
Defined.

Lemma init_rejects_count_mismatch_witness :
  monitor.__init__ (Position := unit) no_frame (Some three_rois)
    (Some [Some 100; Some 200]) None empty_heap
  = (empty_heap, Raise ValueError).
Proof. apply init_rejects_count_mismatch. simpl. lia. Defined.

(** C3 as it stands fails: the id [0] is the id of no ROI, and the mapping
    that yokes ROI 1 to it is accepted; it reads ROI 3 for it. *)
Lemma init_accepts_id_zero :
  ¬ (∀ (rois : list string) stimulators yoke h,
       length stimulators = length rois →
       (∃ y f, (y, f) ∈ yoke ∧
          ¬ ((1 ≤ y ≤ Z.of_nat (length rois))%Z ∧
             (1 ≤ f ≤ Z.of_nat (length rois))%Z)) →
       ∃ h' e, monitor.__init__ (Position := unit) no_frame (Some rois)
                 (Some stimulators) (Some yoke) h = (h', Raise e)).
Proof.
  intros H.
  destruct (H three_rois three_stimulators [(1, 0)]%Z empty_heap)
    as (h' & e & Hinit).
  - reflexivity.
  - exists 1%Z, 0%Z. split; [apply list_elem_of_here|]. simpl. lia.
  - vm_compute in Hinit. discriminate.
Qed.

(** C1 fails on a chain.  ROI 3 is yoked to ROI 2 and ROI 2 to ROI 1, the
    items coming in this order.  The first loop constructs a unit for ROI 2
    (tracker 0) and for ROI 1 (tracker 1); the second loop binds the
    stimulator of ROI 3 to tracker 0 and then puts a new unit for ROI 2
    (tracker 3) in the place of the first.  The stimulator of ROI 3 is left
    with tracker 0, which is the tracker of no unit of the monitor and not
    the tracker of the unit of ROI 2. *)
Theorem chained_yoke_observes_discarded_tracker :
  ∃ h' (m : monitor.Monitor string unit unit) u2 u3,
    monitor.__init__ no_frame (Some three_rois) (Some three_stimulators)
      (Some [(3, 2); (2, 1)]%Z) empty_heap = (h', Return m) ∧
    monitor._unit_trackers m !! 1 = Some (Some u2) ∧
    monitor._unit_trackers m !! 2 = Some (Some u3) ∧
    tracking_unit._stimulator u3 = Some 300 ∧
    bound h' !! 300 = Some 0 ∧
    tracking_unit._tracker u2 = 3 ∧
    (∀ i u, monitor._unit_trackers m !! i = Some (Some u) →
            tracking_unit._tracker u ≠ 0).
Proof.
  do 4 eexists. split; [vm_compute; reflexivity|].
  split; [reflexivity|]. split; [reflexivity|]. split; [reflexivity|].
  split; [by vm_compute|]. split; [reflexivity|].
  intros [|[|[|i]]] u; simpl; intros [= <-]; simpl; lia.
Qed.

(** The same mapping with its items in the other order is resolved as C1
    says: the stimulator of ROI 3 observes the tracker of the unit of
    ROI 2. *)
Example chained_yoke_other_order :
  ∃ h' (m : monitor.Monitor string unit unit) u2,
    monitor.__init__ no_frame (Some three_rois) (Some three_stimulators)
      (Some [(2, 1); (3, 2)]%Z) empty_heap = (h', Return m) ∧
    monitor._unit_trackers m !! 1 = Some (Some u2) ∧
    bound h' !! 300 = Some (tracking_unit._tracker u2).
Proof.
  do 3 eexists. split; [vm_compute; reflexivity|].
  split; [reflexivity|]. by vm_compute.
Qed.

(** ** The interactors *)

Section interactors.
Import interactors.

Lemma Qltb_lt a b : Qltb a b = true ↔ (a < b)%Q.
Proof.
  unfold Qltb. rewrite negb_true_iff, <- not_true_iff_false, Qle_bool_iff.
  split; [apply Qnot_le_lt|apply Qlt_not_le].
Qed.

Lemma Qltb_ge a b : Qltb a b = false ↔ (b <= a)%Q.
Proof.
  unfold Qltb. rewrite negb_false_iff, Qle_bool_iff. done.
Qed.

Lemma py_get_last {A} (l : list A) a : py_get (l ++ [a]) (-1) = Return a.
Proof.
  unfold py_get, py_index. rewrite length_app. simpl.
  rewrite decide_True by lia.
  replace (Z.to_nat _) with (length l + 0) by lia.
  by rewrite lookup_app_r, Nat.add_comm, Nat.add_sub by lia.
Qed.

Lemma py_get_last_but_one {A} (l : list A) a b :
  py_get (l ++ [a; b]) (-2) = Return a.
Proof.
  unfold py_get, py_index. rewrite length_app. simpl.
  rewrite decide_True by lia.
  replace (Z.to_nat _) with (length l + 0) by lia.
  by rewrite lookup_app_r, Nat.add_comm, Nat.add_sub by lia.
Qed.

Lemma py_get_last_of_two {A} (l : list A) a b :
  py_get (l ++ [a; b]) (-1) = Return b.
Proof. rewrite cons_middle, app_assoc. apply py_get_last. Qed.

Section SleepDepInteractor.
Import SleepDepInteractor.
Context {Interface : Type}.
Variable sqrt : Q → Q.
Implicit Types (self : attrs Interface) (p : Position) (t : Q).

(** One call of [_run] on a history of two samples at least. *)
Lemma sleep_dep_run self tracker ps ts p_mm p_m now :
  positions tracker = ps ++ [p_mm; p_m] → times tracker = ts ++ [now] →
  _run sqrt tracker self =
  let params : dict := {[ "channel" := _channel self ]} in
  if Qltb (displacement sqrt p_m p_mm) (_distance_threshold self) then
    match _t0 self with
    | None => (set_t0 (Some now) self, Return (false, params))
    | Some t0 =>
        if Qltb (_inactivity_time_threshold self) (now - t0)%Q
        then (set_t0 None self, Return (true, params))
        else (self, Return (false, params))
    end
  else (set_t0 None self, Return (false, params)).
Proof.
  destruct tracker as [pos tms]. cbn [positions times]. intros -> ->.
  unfold _run. unfold bind at 1, get at 1. cbn [positions times].
  rewrite decide_False by (rewrite length_app; simpl; lia).
  unfold bind at 1, lift at 1. rewrite py_get_last_of_two.
  unfold bind at 1, lift at 1. rewrite py_get_last_but_one.
  cbn zeta. destruct (Qltb (displacement _ _ _) _); [|done].
  unfold bind at 1, lift at 1. rewrite py_get_last.
  destruct (_t0 self) as [t0|]; [|done].
  by destruct (Qltb _ (now - t0)%Q).
Qed.

(** C5, amended.  An interactor whose timer is not running is called
    after each of the samples 2, 3 and 4 of a history (what came before
    sample 1 is arbitrary).  Sample 2 is less than the distance threshold
    away from sample 1: the call after it does not trigger, however far
    apart in time the two samples are, and starts the timer at the time of
    sample 2, not of sample 1.  Sample 3 is less than the threshold away
    from sample 2: the call after it does not trigger when sample 3 comes
    no more than the inactivity duration after the time of sample 2, and it
    triggers and stops the timer when sample 3 comes more than the duration
    after the time of sample 2.  After the trigger, a sample 4 less than
    the threshold away from sample 3 does not trigger again, it starts the
    timer anew.  A sample 4 that is not less than the threshold away from
    sample 3 does not trigger and stops the timer, whatever the timer was:
    stopped by the trigger, or running since any time. *)
Theorem sleep_dep_edge_triggered self ps ts p1 p2 p3 p4 t1 t2 t3 t4 :
  let thr := _distance_threshold self in
  let dur := _inactivity_time_threshold self in
  let params : dict := {[ "channel" := _channel self ]} in
  let history (ps' : list Position) (ts' : list Q) :=
    mkTracker (ps ++ ps') (ts ++ ts') in
  _t0 self = None →
  (displacement sqrt p2 p1 < thr)%Q →
  (displacement sqrt p3 p2 < thr)%Q →
  _run sqrt (history [p1; p2] [t1; t2]) self
    = (set_t0 (Some t2) self, Return (false, params)) ∧
  ((t3 - t2 <= dur)%Q →
   _run sqrt (history [p1; p2; p3] [t1; t2; t3]) (set_t0 (Some t2) self)
     = (set_t0 (Some t2) self, Return (false, params))) ∧
  ((dur < t3 - t2)%Q →
   _run sqrt (history [p1; p2; p3] [t1; t2; t3]) (set_t0 (Some t2) self)
     = (set_t0 None self, Return (true, params))) ∧
  ((displacement sqrt p4 p3 < thr)%Q →
   _run sqrt (history [p1; p2; p3; p4] [t1; t2; t3; t4]) (set_t0 None self)
     = (set_t0 (Some t4) self, Return (false, params))) ∧
  ((thr <= displacement sqrt p4 p3)%Q →
   ∀ timer : option Q,
     _run sqrt (history [p1; p2; p3; p4] [t1; t2; t3; t4]) (set_t0 timer self)
       = (set_t0 None self, Return (false, params))).
Proof.
  intros thr dur params history H0 H2 H3.
  apply Qltb_lt in H2, H3. subst history thr dur. cbn beta.
  assert (∀ (l : list Position) a (k : list Position),
            ps ++ l ++ a :: k = (ps ++ l) ++ a :: k) as Hp
    by (intros; by rewrite app_assoc).
  assert (∀ (l : list Q) a (k : list Q),
            ts ++ l ++ a :: k = (ts ++ l) ++ a :: k) as Ht
    by (intros; by rewrite app_assoc).
  split; [|split; [|split; [|split]]].
  - rewrite (sleep_dep_run self _ ps (ts ++ [t1]) p1 p2 t2);
      [|done|apply (Ht [t1])]. cbn zeta. by rewrite H2, H0.
  - intros Ht3%Qltb_ge.
    rewrite (sleep_dep_run _ _ (ps ++ [p1]) (ts ++ [t1; t2]) p2 p3 t3);
      [|apply (Hp [p1])|apply (Ht [t1; t2])].
    cbn zeta. cbn [_distance_threshold _t0 set_t0 _inactivity_time_threshold].
    by rewrite H3, Ht3.
  - intros Ht3%Qltb_lt.
    rewrite (sleep_dep_run _ _ (ps ++ [p1]) (ts ++ [t1; t2]) p2 p3 t3);
      [|apply (Hp [p1])|apply (Ht [t1; t2])].
    cbn zeta. cbn [_distance_threshold _t0 set_t0 _inactivity_time_threshold].
    by rewrite H3, Ht3.
  - intros H4%Qltb_lt.
    rewrite (sleep_dep_run _ _ (ps ++ [p1; p2]) (ts ++ [t1; t2; t3]) p3 p4 t4);
      [|apply (Hp [p1; p2])|apply (Ht [t1; t2; t3])].
    cbn zeta. cbn [_distance_threshold _t0 set_t0]. by rewrite H4.
  - intros H4%Qltb_ge timer.
    rewrite (sleep_dep_run _ _ (ps ++ [p1; p2]) (ts ++ [t1; t2; t3]) p3 p4 t4);
      [|apply (Hp [p1; p2])|apply (Ht [t1; t2; t3])].
    cbn zeta. cbn [_distance_threshold _t0 set_t0]. by rewrite H4.
Qed.
End SleepDepInteractor.

Section SystemPlaySoundOnStop.
Import SystemPlaySoundOnStop.
Variable sqrt : Q → Q.
Implicit Types (self : attrs) (tracker : Tracker).

Hypothesis sqrt_nonneg : ∀ q, (0 <= sqrt q)%Q.





End SystemPlaySoundOnStop.

Section BaseInteractor.
Import BaseInteractor.
Implicit Types (self : attrs) (ps : processes) (s : attrs * processes)
  (kwargs : dict).

Lemma interact_async_busy kwargs s :
  is_alive s.2 (_subprocess s.1) = true →
  _interact_async kwargs s = (s, Return tt).
Proof.
  intros Ha. unfold _interact_async, bind, get. by rewrite Ha.
Qed.

Lemma interact_async_idle kwargs s tg :
  is_alive s.2 (_subprocess s.1) = false → _target s.1 = Some tg →
  _interact_async kwargs s =
    ((set_subprocess (length s.2) s.1,
      s.2 ++ [mkProcess (Some tg) kwargs Running]), Return tt).
Proof.
  intros Ha Ht. unfold _interact_async, bind, get. by rewrite Ha, Ht.
Qed.

Lemma is_alive_exit ps p : is_alive (exit_process p ps) p = false.
Proof.
  unfold exit_process, is_alive.
  destruct (ps !! p) as [[tg kw []]|] eqn:Hp; rewrite ?Hp; try done.
  rewrite list_lookup_insert_eq; [done|]. by eapply lookup_lt_Some.
Qed.

Lemma is_alive_exit_other ps p q :
  is_alive (exit_process p ps) q = true → is_alive ps q = true.
Proof.
  unfold exit_process.
  destruct (ps !! p) as [[tg kw []]|] eqn:Hp; try done.
  unfold is_alive. destruct (decide (p = q)) as [->|Hne].
  - rewrite list_lookup_insert_eq; [done|]. by eapply lookup_lt_Some.
  - by rewrite list_lookup_insert_ne.
Qed.

Lemma step_single_flight s e : single_flight s → single_flight (step s e).
Proof.
  intros Hs. destruct e as [kwargs|p]; simpl.
  - destruct (is_alive s.2 (_subprocess s.1)) eqn:Ha.
    + by rewrite interact_async_busy.
    + destruct (_target s.1) as [tg|] eqn:Ht.
      * rewrite (interact_async_idle _ _ tg) by done.
        intros q. simpl. unfold is_alive.
        destruct (decide (q < length s.2)) as [Hq|Hq].
        -- rewrite lookup_app_l by done. intros Hq'.
           assert (is_alive s.2 q = true) as Hq'' by done.
           pose proof (Hs _ Hq'') as ->. congruence.
        -- intros Hq'.
           destruct ((s.2 ++ [mkProcess (Some tg) kwargs Running]) !! q)
             eqn:Hl; [|done].
           apply lookup_lt_Some in Hl. rewrite length_app in Hl.
           simpl in Hl. lia.
      * unfold _interact_async, bind, get. by rewrite Ha, Ht.
  - intros q Hq. simpl in *. by apply is_alive_exit_other, Hs in Hq.
Qed.

Lemma after_single_flight self0 es : single_flight (after self0 es).
Proof.
  unfold after.
  assert (single_flight (set_subprocess 0 self0, class_processes)) as H0.
  { intros [|[|q]]; done. }
  revert H0. generalize (set_subprocess 0 self0, class_processes).
  induction es as [|e es IH]; intros s Hs; simpl; [done|].
  by apply IH, step_single_flight.
Qed.

(** C4.  Take an interactor of a class with the attributes [self0] after
    any sequence of decisions to act and of ends of processes.  At most
    one of its processes is alive.  When the process it holds is alive,
    [_interact_async] changes nothing: no process is created and the
    request is kept nowhere.  A process that has come to its end is not
    alive, and when the process held is not alive and the class has a
    target, [_interact_async] creates and starts one process, with the
    target and the arguments of the request, and holds it. *)
Theorem async_single_flight self0 es :
  let s := after self0 es in
  (∀ p q, is_alive s.2 p = true → is_alive s.2 q = true → p = q) ∧
  (∀ kwargs, is_alive s.2 (_subprocess s.1) = true →
     _interact_async kwargs s = (s, Return tt)) ∧
  (∀ p, is_alive (step s (Exit p)).2 p = false) ∧
  (∀ kwargs tg,
     is_alive s.2 (_subprocess s.1) = false → _target s.1 = Some tg →
     ∃ s', _interact_async kwargs s = (s', Return tt) ∧
           s'.2 = s.2 ++ [mkProcess (Some tg) kwargs Running] ∧
           _subprocess s'.1 = length s.2 ∧
           is_alive s'.2 (_subprocess s'.1) = true).
Proof.
  intros s. pose proof (after_single_flight self0 es) as Hs. fold s in Hs.
  split; [|split; [|split]].
  - intros p q Hp%Hs Hq%Hs. congruence.
  - intros kwargs. apply interact_async_busy.
  - intros p. apply is_alive_exit.
  - intros kwargs tg Ha Ht. eexists.
    split; [by apply interact_async_idle|]. simpl.
    split; [done|]. split; [done|].
    unfold is_alive. rewrite lookup_app_r by done.
    by rewrite Nat.sub_diag.
Qed.
End BaseInteractor.

Section calls.
Context {Sub World : Type}.
Variable _run : Tracker → ST Sub (bool * dict).
Variable _interact : Sub → dict → ST World unit.

(** C10.  An interactor with a tracker bound is called and its [_run]
    returns the decision [interact] and the parameters [result].  When
    the action, if there is to be one, does not raise, the call returns
    [result] with [interact] under the key ["interact"]; for the
    asynchronous class the action does not raise when the process held
    is alive or the class has a target, and when the process is alive
    the request is dropped: the interactor and its processes are as
    [_run] left them, and what is returned is the same. *)
Theorem call_returns_decision (trackers : tracker_ref → Tracker) tr
    (sub sub' : Sub) interact result :
  _run (trackers tr) sub = (sub', Return (interact, result)) →
  (∀ self w,
     BaseInteractorSync._tracker self = Some tr →
     (interact = true → ∃ w', _interact sub' result w = (w', Return tt)) →
     ∃ w', BaseInteractorSync.__call__ _run _interact trackers
             (self, sub, w)
           = ((self, sub', w'),
              Return (<["interact" := PyBool interact]> result))) ∧
  (∀ self ps,
     BaseInteractor._tracker self = Some tr →
     (interact = true →
        is_alive ps (BaseInteractor._subprocess self) = true ∨
        is_Some (BaseInteractor._target self)) →
     ∃ self' ps',
       BaseInteractor.__call__ _run trackers (self, sub, ps)
         = ((self', sub', ps'),
            Return (<["interact" := PyBool interact]> result)) ∧
       (is_alive ps (BaseInteractor._subprocess self) = true →
          self' = self ∧ ps' = ps)).
Proof.
  intros Hrun. split.
  - intros self w Htr Hact. unfold BaseInteractorSync.__call__.
    unfold bind at 1, get at 1. cbn [fst snd]. rewrite Htr.
    unfold bind at 1, on_fst, on_snd. cbn [fst snd]. rewrite Hrun.
    destruct interact.
    + destruct Hact as [w' Hw]; [done|]. exists w'.
      unfold bind, get, on_snd. cbn [fst snd]. by rewrite Hw.
    + by exists w.
  - intros self ps Htr Hact. unfold BaseInteractor.__call__.
    unfold bind at 1, get at 1. cbn [fst snd]. rewrite Htr.
    unfold bind at 1, on_fst, on_snd. cbn [fst snd]. rewrite Hrun.
    destruct interact; [|by exists self, ps].
    unfold bind, BaseInteractor.on_base. cbn [fst snd].
    destruct (is_alive ps (BaseInteractor._subprocess self)) eqn:Ha.
    + rewrite (interact_async_busy result (self, ps)) by done. by exists self, ps.
    + destruct Hact as [?|[tg Ht]]; [done|done|].
      rewrite (interact_async_idle _ (self, ps) tg) by done.
      cbn [fst snd]. by do 2 eexists.
Qed.
End calls.
End interactors.

(** C5 as it stands fails: a new interactor is called after each of three
    samples at one place, of times 0, 60 and 100.  The first two are less
    than the inactivity duration of 90 s apart and the third comes more
    than 90 s after the first, yet no call triggers: the timer runs from
    the time of the second sample, and at the third only 40 s are on it. *)
Lemma sleep_dep_timer_from_second_sample :
  let self := interactors.SleepDepInteractor.__init__
                (interactors.PyInt 1) tt in
  let no_action : result (bool * interactors.dict) :=
    Return (false, {[ "channel" := interactors.PyInt 1 ]}) in
  let r1 := interactors.SleepDepInteractor._run sqrt_exact
              (interactors.mkTracker [still] [0%Q]) self in
  let r2 := interactors.SleepDepInteractor._run sqrt_exact
              (interactors.mkTracker [still; still] [0; 60]%Q) r1.1 in
  let r3 := interactors.SleepDepInteractor._run sqrt_exact
              (interactors.mkTracker [still; still; still] [0; 60; 100]%Q)
              r2.1 in
  (interactors.SleepDepInteractor.displacement sqrt_exact still still
   < interactors.SleepDepInteractor._distance_threshold self)%Q ∧
  (60 - 0 < interactors.SleepDepInteractor._inactivity_time_threshold self)%Q ∧
  (interactors.SleepDepInteractor._inactivity_time_threshold self < 100 - 0)%Q ∧
  r1.2 = no_action ∧ r2.2 = no_action ∧ r3.2 = no_action ∧
  interactors.SleepDepInteractor._t0 r2.1 = Some 60%Q ∧
  interactors.SleepDepInteractor._t0 r3.1 = Some 60%Q.
Proof.
  vm_compute. repeat split; reflexivity.
Qed.

(** Samples at one place of times 0, 1 and 100: with the timer running
    since time 1 the third sample triggers.  Samples at one place of times
    0, 1 and 50, then a sample elsewhere at time 51: the third sample does
    not trigger, and the fourth stops the timer that runs since time 1. *)
Lemma sleep_dep_edge_triggered_witness :
  let self := interactors.SleepDepInteractor.__init__ (interactors.PyInt 1) tt in
  let running := interactors.SleepDepInteractor.set_t0 (Some 1%Q) self in
  let stopped := interactors.SleepDepInteractor.set_t0 None self in
  let params : interactors.dict := {[ "channel" := interactors.PyInt 1 ]} in
  interactors.SleepDepInteractor._run sqrt_exact
    (interactors.mkTracker [still; still; still] [0; 1; 100]%Q) running
  = (stopped, Return (true, params)) ∧
  interactors.SleepDepInteractor._run sqrt_exact
    (interactors.mkTracker [still; still; still] [0; 1; 50]%Q) running
  = (running, Return (false, params)) ∧
  interactors.SleepDepInteractor._run sqrt_exact
    (interactors.mkTracker [still; still; still; moved] [0; 1; 50; 51]%Q)
    running
  = (stopped, Return (false, params)).
Proof.
  intros self running stopped params.
  destruct (sleep_dep_edge_triggered sqrt_exact self [] []
              still still still moved 0 1 100 101)%Q as (_ & _ & H & _);
    [reflexivity..|].
  destruct (sleep_dep_edge_triggered sqrt_exact self [] []
              still still still moved 0 1 50 51)%Q as (_ & H2 & _ & _ & H4);
    [reflexivity..|].
  split; [|split].
  - apply H. reflexivity.
  - apply H2. vm_compute. discriminate.
  - apply (H4 ltac:(vm_compute; discriminate) (Some 1%Q)).
Defined.




Lemma async_single_flight_witness :
  (let s := interactors.BaseInteractor.after sound_base
              [interactors.BaseInteractor.Trigger kwargs_440] in
   interactors.BaseInteractor._interact_async kwargs_440 s = (s, Return tt)) ∧
  (let s := interactors.BaseInteractor.after sound_base
              [interactors.BaseInteractor.Trigger kwargs_440;
               interactors.BaseInteractor.Exit 1] in
   ∃ s', interactors.BaseInteractor._interact_async kwargs_440 s
           = (s', Return tt) ∧
         length s'.2 = 3).
Proof.
  split.
  - intros s.
    apply (async_single_flight sound_base
             [interactors.BaseInteractor.Trigger kwargs_440]).
    reflexivity.
  - intros s.
    destruct (async_single_flight sound_base
                [interactors.BaseInteractor.Trigger kwargs_440;
                 interactors.BaseInteractor.Exit 1])
      as (_ & _ & _ & H).
    destruct (H kwargs_440 interactors.beep) as (s' & Hs' & Hps & _).
    + reflexivity.
    + reflexivity.
    + exists s'. split; [exact Hs'|]. rewrite Hps. reflexivity.
Defined.

(** An interactor of [SystemPlaySoundOnStop] whose process is alive is
    called on [threshold_walk]: it decides to act, the request is dropped
    and the decision is returned all the same. *)
Lemma call_returns_decision_witness :
  let sub := (interactors.SystemPlaySoundOnStop.__init__
                (interactors.PyInt 440)).2 in
  let self := interactors.BaseInteractor.mkAttrs (Some 0) 1
                (Some interactors.beep) in
  let ps := [interactors.mkProcess None ∅ interactors.Initial;
             interactors.mkProcess (Some interactors.beep) kwargs_440
               interactors.Running] in
  ∃ self' ps',
    interactors.SystemPlaySoundOnStop.__call__ sqrt_exact
      (λ _, threshold_walk) (self, sub, ps)
    = ((self', interactors.SystemPlaySoundOnStop.set_t0 (Some 30%Q) sub, ps'),
       Return (<["interact" := interactors.PyBool true]> kwargs_440)) ∧
    (interactors.is_alive ps (interactors.BaseInteractor._subprocess self)
       = true → self' = self ∧ ps' = ps).
Proof.
  intros sub self ps.
  destruct (call_returns_decision (World := unit)
              (interactors.SystemPlaySoundOnStop._run sqrt_exact)
              (λ _ _ w, (w, Return tt)) (λ _, threshold_walk) 0 sub
              (interactors.SystemPlaySoundOnStop.set_t0 (Some 30%Q) sub)
              true kwargs_440) as [_ H].
  - vm_compute. reflexivity.
  - apply (H self ps); [reflexivity|]. intros _. left. reflexivity.
Defined.


(** * Further properties *)

(** ** Monitor.__init__ without a mapping *)

Section monitor_init_plain.
Import tracking_unit monitor.
Context {ROI Frame Position : Type}.
Implicit Types (rois : list ROI) (stimulators : list (option stim_ref))
  (camera : list (result (Z * Frame))) (h : Heap).

(** The list comprehensions of lines 69 and 74: the units get the trackers
    [next_tracker h], [next_tracker h + 1], ... in the order of the list. *)
Lemma build_units_spec (rs : list (ROI * option stim_ref)) h :
  ∃ h' units,
    build_units rs h = (h', Return units) ∧
    next_tracker h' = next_tracker h + length rs ∧
    length units = length rs ∧
    (∀ i r s, rs !! i = Some (r, s) →
       units !! i = Some (Some (mkTrackingUnit r s (next_tracker h + i)))) ∧
    (∀ s, (∀ i r, rs !! i ≠ Some (r, Some s)) →
       bound h' !! s = bound h !! s) ∧
    (∀ i r s, rs !! i = Some (r, Some s) →
       (∀ j r', rs !! j = Some (r', Some s) → j = i) →
       bound h' !! s = Some (next_tracker h + i)).
Proof.
  revert h. induction rs as [|[r0 s0] rs IH]; intros h.
  - exists h, []. simpl. repeat split; try done; lia.
  - simpl. unfold bind at 1. rewrite init_eq.
    set (h1 := mkHeap _ _).
    destruct (IH h1) as (h' & units & Hb & Hn & Hl & Hu & Hfree & Hown).
    exists h', (Some (mkTrackingUnit r0 s0 (next_tracker h)) :: units).
    unfold bind at 1. rewrite Hb. split; [done|].
    split; [rewrite Hn; simpl; lia|]. split; [simpl; lia|].
    split; [|split].
    + intros [|i] r s Hi; simpl in *.
      * simplify_eq. by rewrite Nat.add_0_r.
      * rewrite (Hu _ _ _ Hi). simpl. do 3 f_equal. lia.
    + intros s Hs. rewrite Hfree by (intros i r; apply (Hs (S i))).
      subst h1. simpl. destruct s0 as [s0|]; [|done].
      rewrite lookup_insert_ne; [done|]. intros ->. by apply (Hs 0 r0).
    + intros [|i] r s Hi Huniq; simpl in *.
      * simplify_eq. rewrite Hfree.
        -- subst h1. simpl. by rewrite lookup_insert_eq, Nat.add_0_r.
        -- intros j r' Hj. by specialize (Huniq (S j) r' Hj).
      * rewrite (Hown i r s Hi).
        -- subst h1. simpl. f_equal. lia.
        -- intros j r' Hj. specialize (Huniq (S j) r' Hj). lia.
Qed.

(** X1.  Without a list of stimulators the constructor returns a monitor
    of one unit for each ROI, in the order of the ROIs, each unit with a new
    tracker and no stimulator; no stimulator is bound, and the mapping is
    not looked at, whatever it is. *)
Theorem init_without_stimulators camera rois
    (mapping : option (list (Z * Z))) h :
  ∃ m : Monitor ROI Frame Position,
    monitor.__init__ camera (Some rois) None mapping h
      = (mkHeap (next_tracker h + length rois) (bound h), Return m) ∧
    length (_unit_trackers m) = length rois ∧
    (∀ i r, rois !! i = Some r →
       _unit_trackers m !! i
         = Some (Some (mkTrackingUnit r None (next_tracker h + i)))).
Proof.
  destruct (build_units_spec ((λ r, (r, None)) <$> rois) h)
    as (h' & units & Hb & Hn & Hl & Hu & Hfree & _).
  rewrite length_fmap in Hn, Hl.
  exists (new_monitor camera units). split; [|split; [done|]].
  - unfold monitor.__init__. rewrite (bind_Return _ _ _ _ _ Hb).
    unfold ret. f_equal. destruct h' as [n' b']. simpl in *. f_equal; [done|].
    apply map_eq. intros s. apply Hfree. intros i r.
    rewrite list_lookup_fmap. by destruct (rois !! i).
  - intros i r Hr. apply Hu. by rewrite list_lookup_fmap, Hr.
Qed.

(** X2.  With as many stimulators as ROIs and no mapping, the unit of each
    index holds the ROI and the stimulator of that index and a new tracker;
    a stimulator that stands at one index only is bound to the tracker of
    its unit, and a stimulator that is not in the list is left as it was. *)
Theorem init_without_yoke camera rois stimulators h :
  length stimulators = length rois →
  ∃ h' (m : Monitor ROI Frame Position),
    monitor.__init__ camera (Some rois) (Some stimulators) None h
      = (h', Return m) ∧
    next_tracker h' = next_tracker h + length rois ∧
    length (_unit_trackers m) = length rois ∧
    (∀ i r s, rois !! i = Some r → stimulators !! i = Some s →
       _unit_trackers m !! i
         = Some (Some (mkTrackingUnit r s (next_tracker h + i)))) ∧
    (∀ i s, stimulators !! i = Some (Some s) →
       (∀ j, stimulators !! j = Some (Some s) → j = i) →
       bound h' !! s = Some (next_tracker h + i)) ∧
    (∀ s, (∀ i, stimulators !! i ≠ Some (Some s)) →
       bound h' !! s = bound h !! s).
Proof.
  intros Hlen.
  destruct (build_units_spec (zip rois stimulators) h)
    as (h' & units & Hb & Hn & Hl & Hu & Hfree & Hown).
  rewrite length_zip_with_l_eq in Hn, Hl by done.
  exists h', (new_monitor camera units).
  split; [|split; [done|split; [done|split; [|split]]]].
  - unfold monitor.__init__. rewrite decide_True by done.
    by rewrite (bind_Return _ _ _ _ _ Hb).
  - intros i r s Hr Hs. apply Hu. apply lookup_zip_with_Some. eauto.
  - intros i s Hs Huniq.
    destruct (lookup_lt_is_Some_2 rois i) as [r Hr].
    { rewrite <- Hlen. by eapply lookup_lt_Some. }
    apply (Hown i r s).
    + apply lookup_zip_with_Some. eauto.
    + intros j r' (?&?&[= <- <-]&_&Hj)%lookup_zip_with_Some. by apply Huniq.
  - intros s Hs. apply Hfree.
    intros i r (?&?&[= <- <-]&_&Hi)%lookup_zip_with_Some. by apply (Hs i).
Qed.
End monitor_init_plain.

Lemma init_without_yoke_witness :
  ∃ h' (m : monitor.Monitor string unit unit),
    monitor.__init__ no_frame (Some three_rois) (Some three_stimulators) None
      empty_heap = (h', Return m) ∧
    next_tracker h' = 3 ∧ bound h' !! 200 = Some 1.
Proof.
  destruct (init_without_yoke (Position := unit) no_frame three_rois
              three_stimulators empty_heap)
    as (h' & m & Hinit & Hn & _ & _ & Hown & _); [reflexivity|].
  exists h', m. split; [exact Hinit|]. split; [exact Hn|].
  apply (Hown 1 200); [reflexivity|].
  intros [|[|[|j]]]; simpl; intros [=]; reflexivity.
Defined.

(** ** Monitor.__init__ with a mapping *)

Section monitor_init_mapping.
Import tracking_unit monitor.
Context {ROI Frame Position : Type}.
Implicit Types (rois : list ROI) (stimulators : list (option stim_ref))
  (camera : list (result (Z * Frame))) (h : Heap).

(** The third loop, on units of which the first are constructed and the
    others are not, constructs the others as a list comprehension does. *)
Lemma default_loop_build (pre_r rs_r : list ROI)
    (pre_s rs_s : list (option stim_ref))
    (us : list (option (TrackingUnit ROI))) h :
  length pre_r = length us → length pre_s = length us →
  length rs_s = length rs_r →
  for_each (default_body (pre_r ++ rs_r) (pre_s ++ rs_s))
    (seq (length us) (length rs_r)) (us ++ ((λ _, None) <$> rs_r)) h
  = match build_units (zip rs_r rs_s) h with
    | (h', Return built) => (h', Return (us ++ built))
    | (h', Raise e) => (h', Raise e)
    end.
Proof.
  revert pre_r pre_s rs_s us h.
  induction rs_r as [|r rs_r IH]; intros pre_r pre_s [|s rs_s] us h Hr Hs Hl;
    simplify_eq/=.
  - by rewrite app_nil_r.
  - assert (length (pre_s ++ s :: rs_s) = length (pre_r ++ r :: rs_r)) as Hlen
      by (rewrite !length_app; simpl; lia).
    assert (length (us ++ None :: ((λ _, None) <$> rs_r))
            = length (pre_r ++ r :: rs_r)) as Hlu
      by (rewrite !length_app; simpl; rewrite length_fmap; lia).
    assert (length us < length (pre_r ++ r :: rs_r)) as Hlt
      by (rewrite length_app; simpl; lia).
    destruct (focal_body_new (pre_r ++ r :: rs_r) (pre_s ++ s :: rs_s) Hlen
                (us ++ None :: ((λ _, None) <$> rs_r)) h
                (Z.of_nat (length us) + 1) (length us) Hlu
                (index_of_succ _ _ Hlen _ _ Hlt))
      as (r' & s' & Hr' & Hs' & Hbody).
    { by rewrite lookup_app_r, Nat.sub_diag by lia. }
    rewrite <- Hr, lookup_app_r, Nat.sub_diag in Hr' by lia.
    rewrite <- Hs, lookup_app_r, Nat.sub_diag in Hs' by lia.
    simpl in Hr', Hs'. injection Hr' as <-. injection Hs' as <-.
    unfold bind at 1. rewrite (default_body_focal _ _ Hlen), Hbody, init_eq.
    cbn [fst]. unfold bind at 1. rewrite init_eq.
    rewrite insert_app_r_alt, Nat.sub_diag by lia. cbn [list_insert].
    set (u := mkTrackingUnit r s (next_tracker h)).
    set (h1 := mkHeap _ _).
    change (<[0:=Some u]> (None :: ((λ _ : ROI, None) <$> rs_r)))
      with (Some u :: ((λ _ : ROI, @None (TrackingUnit ROI)) <$> rs_r)).
    rewrite (cons_middle (Some u)), app_assoc.
    rewrite (cons_middle r pre_r), (cons_middle s pre_s), !app_assoc.
    replace (S (length us)) with (length (us ++ [Some u]))
      by (rewrite length_app; simpl; lia).
    rewrite (IH (pre_r ++ [r]) (pre_s ++ [s]) rs_s (us ++ [Some u]) h1)
      by (rewrite ?length_app; simpl; lia).
    unfold bind. destruct (build_units (zip rs_r rs_s) h1) as [h' [built|e]];
      [|done].
    unfold ret. by rewrite <- app_assoc.
Qed.

(** X3.  An empty mapping is no mapping: the constructor returns the same
    monitor and leaves the same store, and it raises [ValueError] alike
    when the stimulators are not as many as the ROIs. *)
Theorem init_empty_mapping camera rois stimulators h :
  monitor.__init__ (Position := Position) camera (Some rois)
    (Some stimulators) (Some []) h
  = monitor.__init__ camera (Some rois) (Some stimulators) None h.
Proof.
  unfold monitor.__init__. case_decide as Hlen; [|done].
  pose proof (default_loop_build [] rois [] stimulators [] h eq_refl eq_refl
                Hlen) as Hloop.
  cbn [app length] in Hloop.
  destruct (build_units_spec (zip rois stimulators) h)
    as (h' & units & Hb & _ & Hl & Hu & _).
  rewrite Hb in Hloop.
  assert (assert_trackers units h' = (h', Return tt)) as Hassert.
  { apply assert_trackers_ok. intros i Hi.
    destruct (lookup_lt_is_Some_2 (zip rois stimulators) i) as [[r s] Hrs];
      [lia|].
    eexists. by apply Hu. }
  unfold resolve_yoke. cbn [fmap list_fmap for_each].
  unfold bind, ret. rewrite length_fmap, Hloop, Hassert. by rewrite Hb.
Qed.
End monitor_init_mapping.

Lemma yoked_stimulator_observes_focal_witness :
  ∃ h' (m : monitor.Monitor string unit unit) uy uf,
    monitor.__init__ no_frame (Some three_rois) (Some three_stimulators)
      (Some [(2, 1); (3, 1)]%Z) empty_heap = (h', Return m) ∧
    monitor._unit_trackers m !! 2 = Some (Some uy) ∧
    monitor._unit_trackers m !! 0 = Some (Some uf) ∧
    bound h' !! 300 = Some (tracking_unit._tracker uf).
Proof.
  destruct (yoked_stimulator_observes_focal (Position := unit) no_frame
              three_rois three_stimulators [(2, 1); (3, 1)]%Z empty_heap
              3%Z 1%Z 300)
    as (h' & m & uy & uf & Hinit & Huy & Huf & _ & _ & Hb & _).
  - reflexivity.
  - intros y f [[= -> ->]|[[= -> ->]|[]%elem_of_nil]%elem_of_cons]%elem_of_cons;
      simpl; lia.
  - apply list_elem_of_further, list_elem_of_here.
  - intros f [[=]|[[= ->]|[]%elem_of_nil]%elem_of_cons]%elem_of_cons.
    reflexivity.
  - intros y f [[= -> ->]|[[= -> ->]|[]%elem_of_nil]%elem_of_cons]%elem_of_cons;
      lia.
  - reflexivity.
  - intros [|[|[|j]]]; simpl; intros [=]; reflexivity.
  - by exists h', m, uy, uf.
Defined.

(** ** Monitor.run, frame by frame *)

Section monitor_run_frames.
Import tracking_unit monitor.
Context {ROI Frame Row Position World ResultWriter Drawer : Type}.
Variable track : TrackingUnit ROI → Z → Frame → ST World (list Row).
Variable get_last_positions : TrackingUnit ROI → ST World (list Position).
Variable idx : ROI → Z.
Variable write : ResultWriter → Z → ROI → list Row → ST World unit.
Variable flush : ResultWriter → Z → Frame → ST World unit.
Variable draw : Drawer → Frame → gmap Z (list Position) →
                list (option (TrackingUnit ROI)) → ST World unit.
Variable stops : nat → bool.

Abbreviation unit_body' := (unit_body track get_last_positions idx write).
Abbreviation frame_body' :=
  (frame_body track get_last_positions idx write flush draw).
Abbreviation frame_loop' :=
  (frame_loop track get_last_positions idx write flush draw stops).
Abbreviation run' :=
  (run track get_last_positions idx write flush draw stops).

Implicit Types (m : Monitor ROI Frame Position)
  (s : Monitor ROI Frame Position * World) (rw : option ResultWriter)
  (dr : option Drawer).

Lemma same_frame_refl m : same_frame m m.
Proof. by unfold same_frame. Qed.

Lemma same_frame_trans m1 m2 m3 :
  same_frame m1 m2 → same_frame m2 m3 → same_frame m1 m3.
Proof.
  intros (?&?&?&?&?) (?&?&?&?&?).
  repeat split; try congruence. set_solver.
Qed.

Lemma same_frame_position k v m : same_frame m (set_last_position k v m).
Proof.
  repeat split. simpl. rewrite dom_insert_L. set_solver.
Qed.

(** One unit: the frame attributes stay, and a unit that was dealt with
    without an exception has an entry in [_last_positions]. *)
Lemma unit_body_frame t frame rw v ut s s' r :
  unit_body' t frame rw v ut s = (s', r) →
  same_frame s.1 s'.1 ∧
  (∀ u, r = Return tt → ut = Some u →
        idx (_roi u) ∈ dom (_last_positions s'.1)).
Proof.
  unfold unit_body, bind, on_fst, on_snd, modify, raise, ret.
  destruct ut as [track_u|];
    [|intros [= <- <-]; split; [apply same_frame_refl|done]].
  destruct (track track_u t frame s.2) as [w1 [rows|e]];
    [|intros [= <- <-]; split; [apply same_frame_refl|done]].
  assert (∀ v', idx (_roi track_u)
                ∈ dom (_last_positions
                         (set_last_position (idx (_roi track_u)) v' s.1)))
    as Hin by (intros v'; simpl; rewrite dom_insert_L; set_solver).
  case_decide; simpl.
  { intros [= <- <-]. split; [apply same_frame_position|].
    intros u _ [= <-]. apply Hin. }
  destruct (get_last_positions track_u w1) as [w2 [abs_pos|e]]; simpl;
    [|intros [= <- <-]; split; [apply same_frame_refl|done]].
  destruct rw as [rw|]; simpl.
  - destruct (write _ _ _ _ _) as [w3 [[]|e]]; intros [= <- <-]; simpl;
      (split; [apply same_frame_position|]); [|done].
    intros u _ [= <-]. apply Hin.
  - intros [= <- <-]. split; [apply same_frame_position|].
    intros u _ [= <-]. apply Hin.
Qed.

Lemma units_loop_frame t frame rw us v s s' r :
  for_each (unit_body' t frame rw) us v s = (s', r) →
  same_frame s.1 s'.1 ∧
  (∀ u, r = Return tt → Some u ∈ us →
        idx (_roi u) ∈ dom (_last_positions s'.1)).
Proof.
  revert v s. induction us as [|ut us IH]; intros v s; simpl.
  - intros [= <- <-]. split; [apply same_frame_refl|].
    by intros u _ ?%elem_of_nil.
  - unfold bind. destruct (unit_body' _ _ _ _ _ _) as [s1 [[]|e]] eqn:Hb;
      apply unit_body_frame in Hb as [Hf1 Hin1].
    + intros [Hf2 Hin2]%IH. split; [by eapply same_frame_trans|].
      intros u Hr [<-|Hu]%elem_of_cons; [|by apply Hin2].
      destruct Hf2 as (_&_&_&_&Hdom). apply Hdom. by apply Hin1.
    + intros [= <- <-]. by split.
Qed.

(** One frame that is dealt with without an exception. *)
Lemma frame_body_frame i t frame rw dr s s' :
  frame_body' i t frame rw dr s = (s', Return tt) →
  _last_frame_idx s'.1 = Z.of_nat i ∧ _last_time_stamp s'.1 = t ∧
  _frame_buffer s'.1 = Some frame ∧ _last_t s'.1 = Some t ∧
  (∀ u, Some u ∈ _unit_trackers s.1 →
        idx (_roi u) ∈ dom (_last_positions s'.1)).
Proof.
  unfold frame_body, bind, on_fst, on_snd, modify, get, ret. simpl.
  destruct (for_each _ _ _ _) as [s1 [[]|e]] eqn:Hu; [|done].
  apply units_loop_frame in Hu as [(Hi & Ht & Hb & _ & _) Hin]. simpl in *.
  assert (∀ u, Some u ∈ _unit_trackers s.1 →
               idx (_roi u) ∈ dom (_last_positions s1.1)) as Hin'
    by (intros u Hu; by apply Hin).
  destruct rw as [rw|]; simpl.
  - destruct (flush rw t frame s1.2) as [w2 [[]|e]]; simpl; [|done].
    destruct dr as [d|]; simpl; [|by intros [= <-]].
    destruct (draw _ _ _ _ _) as [w3 [[]|e]]; by intros [= <-].
  - destruct dr as [d|]; simpl; [|by intros [= <-]].
    destruct (draw _ _ _ _ _) as [w3 [[]|e]]; by intros [= <-].
Qed.

Lemma frame_body_dom i t frame rw dr s s' r :
  frame_body' i t frame rw dr s = (s', r) →
  dom (_last_positions s.1) ⊆ dom (_last_positions s'.1).
Proof.
  unfold frame_body, bind, on_fst, on_snd, modify, get, ret. simpl.
  destruct (for_each _ _ _ _) as [s1 [[]|e]] eqn:Hu;
    apply units_loop_frame in Hu as [(_ & _ & _ & _ & Hd) _]; simpl in Hd;
    [|by intros [= <- _]].
  destruct rw as [rw|]; simpl.
  - destruct (flush rw t frame s1.2) as [w2 [[]|e]]; simpl;
      [|by intros [= <- _]].
    destruct dr as [d|]; simpl; [|by intros [= <- _]].
    destruct (draw _ _ _ _ _) as [w3 [[]|e]]; by intros [= <- _].
  - destruct dr as [d|]; simpl; [|by intros [= <- _]].
    destruct (draw _ _ _ _ _) as [w3 [[]|e]]; by intros [= <- _].
Qed.

(** A loop that starts with the flag set stops at once. *)
Lemma frame_loop_flag i camera rw dr s s' r :
  frame_loop' i camera rw dr s = (s', r) →
  _force_stop s.1 = true → _force_stop s'.1 = true.
Proof.
  destruct camera as [|[[t frame]|e] camera]; simpl.
  - by intros [= <- _].
  - unfold bind, on_fst, get, ret, stop, modify.
    destruct (stops i); simpl; [by intros [= <- _]|].
    intros H Hf. rewrite Hf in H. by injection H as <- _.
  - by intros [= <- _].
Qed.

(** A loop that has returned with the flag not set has gone through all
    the frames: through the first of them, then through the others. *)
Lemma frame_loop_split i c1 c2 rw dr s s' :
  frame_loop' i (c1 ++ c2) rw dr s = (s', Return tt) →
  _force_stop s'.1 = false →
  ∃ s1, frame_loop' i c1 rw dr s = (s1, Return tt) ∧
        _force_stop s1.1 = false ∧
        frame_loop' (i + length c1) c2 rw dr s1 = (s', Return tt).
Proof.
  revert i s. induction c1 as [|[[t frame]|e] c1 IH]; intros i s; simpl.
  - intros H Hf. exists s. rewrite Nat.add_0_r. split; [done|]. split; [|done].
    destruct (_force_stop s.1) eqn:Hs; [|done].
    apply frame_loop_flag in H; [congruence|done].
  - unfold bind, on_fst, get, ret, stop, modify.
    destruct (stops i); simpl.
    + intros [= <-]. simpl. done.
    + destruct (_force_stop s.1) eqn:Hs; [intros [= <-]; simpl; congruence|].
      destruct (frame_body' _ _ _ _ _ _) as [s2 [[]|e]]; [|done].
      intros H Hf. destruct (IH _ _ H Hf) as (s1 & H1 & Hf1 & H2).
      exists s1. split; [done|]. split; [done|].
      by replace (i + S (length c1)) with (S i + length c1) by lia.
  - done.
Qed.

Lemma frame_loop_dom i camera rw dr s s' r :
  frame_loop' i camera rw dr s = (s', r) →
  dom (_last_positions s.1) ⊆ dom (_last_positions s'.1).
Proof.
  revert i s. induction camera as [|[[t frame]|e] camera IH]; intros i s; simpl.
  - by intros [= <- _].
  - unfold bind, on_fst, get, ret, stop, modify.
    destruct (stops i); simpl; [by intros [= <- _]|].
    destruct (_force_stop s.1); [by intros [= <- _]|].
    destruct (frame_body' _ _ _ _ _ _) as [s2 [[]|e]] eqn:Hb;
      apply frame_body_dom in Hb.
    + intros H%IH. set_solver.
    + by intros [= <- _].
  - by intros [= <- _].
Qed.

(** X5.  [run] has returned and [stop] was never called: the camera has
    yielded each of its frames, and the monitor tells of the last of them:
    [last_frame_idx] is its rank counted from 0, [last_time_stamp] its time
    in seconds; and every unit has an entry in [last_positions]. *)
Theorem run_through_all_frames rw dr m w m' w' camera x :
  _camera m = camera ++ [x] →
  run' rw dr (m, w) = ((m', w'), Return tt) →
  _force_stop m' = false →
  ∃ t frame,
    x = Return (t, frame) ∧
    last_frame_idx m' = Z.of_nat (length camera) ∧
    last_time_stamp m' = (inject_Z t / 1000)%Q ∧
    _last_t m' = Some t ∧ _frame_buffer m' = Some frame ∧
    (∀ u, Some u ∈ _unit_trackers m →
          is_Some (last_positions m' !! idx (_roi u))).
Proof.
  intros Hc. unfold run. unfold bind at 1, on_fst at 1, modify at 1.
  cbn [fst snd]. unfold bind at 1, get at 1. cbn [fst snd _camera set_is_running].
  rewrite Hc.
  destruct (frame_loop' 0 _ rw dr _) as [s' r] eqn:Hloop.
  intros [= <- <- ->] Hf. simpl in Hf.
  destruct (frame_loop_split _ _ _ _ _ _ _ Hloop Hf) as (s1 & H1 & Hf1 & H2).
  apply frame_loop_units in H1. destruct s1 as [m1 w1]. simpl in *.
  destruct x as [[t frame]|e]; [|done].
  exists t, frame. split; [done|]. revert H2. simpl.
  unfold bind at 1, on_fst at 1.
  destruct (stops (length camera)); simpl.
  { unfold bind, get, stop, modify. simpl. intros [= <-]. done. }
  unfold bind at 1, get at 1. unfold ret at 1. cbn [fst snd]. rewrite Hf1.
  unfold bind at 1.
  destruct (frame_body' _ _ _ _ _ _) as [s2 [[]|e]] eqn:Hb; [|done].
  intros [= <-].
  apply frame_body_frame in Hb as (Hi & Ht & Hbuf & Hlt & Hin).
  unfold last_frame_idx, last_time_stamp, last_positions. simpl.
  rewrite Hi, Ht. repeat split; try done.
  intros u Hu. apply elem_of_dom, Hin. simpl. by rewrite H1.
Qed.

(** X6.  The frames before some frame went through and [stop] is called
    while the camera is asked for that frame: [run] returns, and neither
    that frame nor a later one is dealt with.  The monitor and the
    collaborators are as the frames before left them, but for the flags. *)
Theorem run_stops_at_flag rw dr m w c1 t frame c2 s1 :
  _camera m = c1 ++ Return (t, frame) :: c2 →
  frame_loop' 0 c1 rw dr (set_is_running true m, w) = (s1, Return tt) →
  _force_stop s1.1 = false →
  stops (length c1) = true →
  run' rw dr (m, w)
    = ((set_is_running false (set_force_stop true s1.1), s1.2), Return tt).
Proof.
  intros Hc H1 Hf Hs. unfold run.
  unfold bind at 1, on_fst at 1, modify at 1. cbn [fst snd].
  unfold bind at 1, get at 1. cbn [fst snd _camera set_is_running].
  rewrite Hc.
  rewrite (frame_loop_app track get_last_positions idx write flush draw stops
             _ _ _ _ _ _ _ H1 Hf). simpl.
  unfold bind, on_fst, get, stop, modify. by rewrite Hs.
Qed.

(** X7.  An exception of the camera is the exception of [run] even when
    [stop] was called before: the flag is read only when the camera has
    yielded a frame. *)
Theorem run_camera_fails rw dr m w c1 e c2 :
  _camera m = c1 ++ Raise e :: c2 →
  (c1 = [] ∨
   ∃ s1, frame_loop' 0 c1 rw dr (set_is_running true m, w) = (s1, Return tt) ∧
         _force_stop s1.1 = false) →
  ∃ m' w', run' rw dr (m, w) = ((m', w'), Raise e) ∧ _is_running m' = false.
Proof.
  intros Hc Hpre. unfold run.
  unfold bind at 1, on_fst at 1, modify at 1. cbn [fst snd].
  unfold bind at 1, get at 1. cbn [fst snd _camera set_is_running].
  rewrite Hc. destruct Hpre as [->|(s1 & H1 & Hf)].
  - simpl. by do 2 eexists.
  - rewrite (frame_loop_app track get_last_positions idx write flush draw
               stops _ _ _ _ _ _ _ H1 Hf). simpl. by do 2 eexists.
Qed.

(** X8.  Whatever the outcome of [run], a ROI that had an entry in
    [last_positions] before has one after. *)
Theorem run_keeps_positions rw dr s k :
  is_Some (last_positions s.1 !! k) →
  is_Some (last_positions (run' rw dr s).1.1 !! k).
Proof.
  unfold last_positions. rewrite <- !elem_of_dom. intros Hk.
  unfold run. unfold bind at 1, on_fst at 1, modify at 1. cbn [fst snd].
  unfold bind at 1, get at 1.
  destruct (frame_loop' 0 _ rw dr _) as [s' r] eqn:Hloop.
  apply frame_loop_dom in Hloop. simpl in *. set_solver.
Qed.
End monitor_run_frames.

Lemma run_through_all_frames_witness :
  let r := monitor.run (ResultWriter := unit) (Drawer := unit)
             steady_track (λ _, ret [tt]) (λ _, 0%Z) (λ _ _ _ _, ret tt)
             (λ _ _ _, ret tt) (λ _ _ _ _, ret tt) (λ _, false) None None
             (two_frames, tt) in
  monitor.last_frame_idx r.1.1 = 1%Z ∧
  monitor.last_time_stamp r.1.1 = (inject_Z 1 / 1000)%Q.
Proof.
  intros r.
  destruct (run_through_all_frames (ResultWriter := unit) (Drawer := unit)
              steady_track (λ _, ret [tt]) (λ _, 0%Z) (λ _ _ _ _, ret tt)
              (λ _ _ _, ret tt) (λ _ _ _ _, ret tt) (λ _, false) None None
              two_frames tt r.1.1 r.1.2 [Return (0%Z, tt)] (Return (1%Z, tt)))
    as (t & frame & Hx & Hi & Ht & _).
  - reflexivity.
  - vm_compute. reflexivity.
  - reflexivity.
  - injection Hx as <- <-. by split.
Defined.

Lemma run_stops_at_flag_witness :
  let r := monitor.run (ResultWriter := unit) (Drawer := unit)
             steady_track (λ _, ret [tt]) (λ _, 0%Z) (λ _ _ _ _, ret tt)
             (λ _ _ _, ret tt) (λ _ _ _ _, ret tt) (λ i, bool_decide (i = 1))
             None None (two_frames, tt) in
  r.2 = Return tt ∧ monitor.last_frame_idx r.1.1 = 0%Z ∧
  monitor._force_stop r.1.1 = true.
Proof.
  intros r.
  pose proof (run_stops_at_flag (ResultWriter := unit) (Drawer := unit)
                steady_track (λ _, ret [tt]) (λ _, 0%Z) (λ _ _ _ _, ret tt)
                (λ _ _ _, ret tt) (λ _ _ _ _, ret tt)
                (λ i, bool_decide (i = 1)) None None two_frames tt
                [Return (0%Z, tt)] 1%Z tt []
                (monitor.frame_loop (ResultWriter := unit) (Drawer := unit)
                   steady_track (λ _, ret [tt]) (λ _, 0%Z)
                   (λ _ _ _ _, ret tt) (λ _ _ _, ret tt) (λ _ _ _ _, ret tt)
                   (λ i, bool_decide (i = 1)) 0 [Return (0%Z, tt)] None None
                   (monitor.set_is_running true two_frames, tt)).1) as H.
  subst r. rewrite H.
  - by vm_compute.
  - reflexivity.
  - vm_compute. reflexivity.
  - reflexivity.
  - reflexivity.
Defined.

Lemma run_camera_fails_witness :
  ∃ m' w',
    monitor.run (ResultWriter := unit) (Drawer := unit)
      steady_track (λ _, ret [tt]) (λ _, 0%Z) (λ _ _ _ _, ret tt)
      (λ _ _ _, ret tt) (λ _ _ _ _, ret tt) (λ _, true) None None
      (monitor.new_monitor (Position := unit) [Raise (OtherError "camera")]
         [Some unit_0], tt)
    = ((m', w'), Raise (OtherError "camera")) ∧
    monitor._is_running m' = false.
Proof.
  apply (run_camera_fails (ResultWriter := unit) (Drawer := unit)
           steady_track (λ _, ret [tt]) (λ _, 0%Z) (λ _ _ _ _, ret tt)
           (λ _ _ _, ret tt) (λ _ _ _ _, ret tt) (λ _, true) None None
           _ tt [] (OtherError "camera") []).
  - reflexivity.
  - by left.
Defined.

Lemma run_keeps_positions_witness :
  is_Some (monitor.last_positions
             (monitor.run (ResultWriter := unit) (Drawer := unit)
                steady_track (λ _, ret [tt]) (λ _, 0%Z) (λ _ _ _ _, ret tt)
                (λ _ _ _, ret tt) (λ _ _ _ _, ret tt) (λ _, false) None None
                (seen_roi_7, tt)).1.1 !! 7%Z).
Proof.
  apply (run_keeps_positions (ResultWriter := unit) (Drawer := unit)
           steady_track (λ _, ret [tt]) (λ _, 0%Z) (λ _ _ _ _, ret tt)
           (λ _ _ _, ret tt) (λ _ _ _ _, ret tt) (λ _, false) None None
           (seen_roi_7, tt) 7%Z).
  exists []. by vm_compute.
Defined.

(** ** The interactors: edges, frames and sequences of calls *)

Section sleep_dep_more.
Import interactors interactors.SleepDepInteractor.
Context {Interface : Type}.
Variable sqrt : Q → Q.
Implicit Types (self : attrs Interface) (tracker : Tracker).

Lemma set_t0_same self : set_t0 (_t0 self) self = self.
Proof. by destruct self. Qed.

(** Every way [_run] can go. *)
Lemma sleep_dep_run_cases self tracker self' r :
  _run sqrt tracker self = (self', r) →
  (length (positions tracker) < 2 ∧ self' = self ∧
   r = Return (false, {[ "channel" := _channel self ]})) ∨
  (∃ p_m p_mm,
     2 ≤ length (positions tracker) ∧
     py_get (positions tracker) (-1) = Return p_m ∧
     py_get (positions tracker) (-2) = Return p_mm ∧
     ((_distance_threshold self <= displacement sqrt p_m p_mm)%Q ∧
      self' = set_t0 None self ∧
      r = Return (false, {[ "channel" := _channel self ]})
      ∨
      (displacement sqrt p_m p_mm < _distance_threshold self)%Q ∧
      ((∃ e, py_get (times tracker) (-1) = Raise e ∧ self' = self ∧
             r = Raise e) ∨
       ∃ now, py_get (times tracker) (-1) = Return now ∧
         (_t0 self = None ∧ self' = set_t0 (Some now) self ∧
          r = Return (false, {[ "channel" := _channel self ]})
          ∨
          ∃ t0, _t0 self = Some t0 ∧
            ((now - t0 <= _inactivity_time_threshold self)%Q ∧ self' = self ∧
             r = Return (false, {[ "channel" := _channel self ]})
             ∨
             (_inactivity_time_threshold self < now - t0)%Q ∧
             self' = set_t0 None self ∧
             r = Return (true, {[ "channel" := _channel self ]})))))).
Proof.
  unfold _run, bind, get, lift, modify, ret.
  case_decide as Hlen; [intros [= <- <-]; by left|].
  destruct (py_get (positions tracker) (-1)) as [p_m|e] eqn:Hm.
  2:{ exfalso. unfold py_get, py_index in Hm.
      rewrite decide_False, decide_True in Hm by lia.
      destruct (lookup_lt_is_Some_2 (positions tracker)
                  (Z.to_nat (-1 + Z.of_nat (length (positions tracker)))))
        as [a Ha]; [lia|]. by rewrite Ha in Hm. }
  destruct (py_get (positions tracker) (-2)) as [p_mm|e] eqn:Hmm.
  2:{ exfalso. unfold py_get, py_index in Hmm.
      rewrite decide_False, decide_True in Hmm by lia.
      destruct (lookup_lt_is_Some_2 (positions tracker)
                  (Z.to_nat (-2 + Z.of_nat (length (positions tracker)))))
        as [a Ha]; [lia|]. by rewrite Ha in Hmm. }
  intros H. right. exists p_m, p_mm.
  split; [lia|]. split; [done|]. split; [done|]. revert H.
  destruct (Qltb (displacement sqrt p_m p_mm) _) eqn:Hd.
  - apply Qltb_lt in Hd.
    destruct (py_get (times tracker) (-1)) as [now|e] eqn:Hnow.
    + destruct (_t0 self) as [t0|] eqn:H0.
      * destruct (Qltb _ (now - t0)%Q) eqn:Ht.
        -- apply Qltb_lt in Ht. intros [= <- <-]. right. split; [done|].
           right. exists now. split; [done|]. right. exists t0.
           split; [done|]. by right.
        -- apply Qltb_ge in Ht. intros [= <- <-]. right. split; [done|].
           right. exists now. split; [done|]. right. exists t0.
           split; [done|]. by left.
      * intros [= <- <-]. right. split; [done|].
        right. exists now. split; [done|]. by left.
    + intros [= <- <-]. right. split; [done|]. left. by exists e.
  - apply Qltb_ge in Hd. intros [= <- <-]. by left.
Qed.

(** X9.  [_run] of [SleepDepInteractor] writes no attribute but [_t0], and
    the parameters it returns are the channel, whatever it decides.  On a
    history of fewer than two positions it decides not to act, leaves [_t0]
    as it is, a timer that runs too, and does not raise, whatever the
    times. *)
Theorem sleep_dep_run_frame self tracker self' r :
  _run sqrt tracker self = (self', r) →
  (∃ t0', self' = set_t0 t0' self) ∧
  (∀ interact params, r = Return (interact, params) →
     params = {[ "channel" := _channel self ]}) ∧
  (length (positions tracker) < 2 →
     self' = self ∧ r = Return (false, {[ "channel" := _channel self ]})).
Proof.
  intros H. pose proof (set_t0_same self) as Hs.
  apply sleep_dep_run_cases in H
    as [(Hl & -> & ->)
       |(p_m & p_mm & Hl & _ & _ &
         [(_ & -> & ->)
         |(_ & [(e & _ & -> & ->)
               |(now & _ & [(_ & -> & ->)
                           |(t0 & _ & [(_ & -> & ->)|(_ & -> & ->)])])])])];
    (split; [eauto|split; [by intros ?? [= _ <-]|intros; lia || done]]).
Qed.

(** X10.  [_run] of [SleepDepInteractor] decides to act only when the last
    two positions are less than the distance threshold apart and the timer
    was started more than the inactivity duration before the last time; it
    stops the timer then, so that the call that follows it, on whatever
    history, does not decide to act. *)
Theorem sleep_dep_fires_only_when self tracker self' params :
  _run sqrt tracker self = (self', Return (true, params)) →
  (∃ p_m p_mm now t0,
     py_get (positions tracker) (-1) = Return p_m ∧
     py_get (positions tracker) (-2) = Return p_mm ∧
     py_get (times tracker) (-1) = Return now ∧
     _t0 self = Some t0 ∧
     (displacement sqrt p_m p_mm < _distance_threshold self)%Q ∧
     (_inactivity_time_threshold self < now - t0)%Q) ∧
  self' = set_t0 None self ∧
  (∀ tracker2 self2 params2,
     _run sqrt tracker2 self' ≠ (self2, Return (true, params2))).
Proof.
  intros H.
  apply sleep_dep_run_cases in H
    as [(_ & _ & [=])
       |(p_m & p_mm & _ & Hm & Hmm &
         [(_ & _ & [=])
         |(Hd & [(e & _ & _ & [=])
                |(now & Hnow & [(_ & _ & [=])
                               |(t0 & H0 & [(_ & _ & [=])
                                           |(Ht & -> & _)])])])])].
  split; [by exists p_m, p_mm, now, t0|]. split; [done|].
  intros tracker2 self2 params2 H2.
  apply sleep_dep_run_cases in H2
    as [(_ & _ & [=])
       |(? & ? & _ & _ & _ &
         [(_ & _ & [=])
         |(_ & [(? & _ & _ & [=])
               |(? & _ & [(_ & _ & [=])
                         |(? & H0' & _)])])])].
  by destruct self.
Qed.
End sleep_dep_more.

Section play_sound_more.
Import interactors interactors.SystemPlaySoundOnStop.
Variable sqrt : Q → Q.
Implicit Types (self : attrs) (tracker : Tracker).

(** What a call of [_run] leaves of the interactor. *)
Lemma play_sound_run_cases self tracker self' r :
  _run sqrt tracker self = (self', r) →
  match r with
  | Return (true, params) =>
      ∃ now, py_get (times tracker) (-1) = Return now ∧
             self' = set_t0 (Some now) self ∧
             params = {[ "freq" := _freq self ]} ∧
             (∀ t0, _t0 self = Some t0 → (_rest_time self <= now - t0)%Q)
  | Return (false, params) =>
      self' = self ∧ params = {[ "freq" := _freq self ]}
  | Raise _ => self' = self
  end.
Proof.
  unfold _run, bind, get, lift, modify, ret.
  destruct (py_get (times tracker) (-1)) as [now|e] eqn:Hnow;
    [|by intros [= <- <-]].
  case_decide; [by intros [= <- <-]|].
  destruct (py_get (times tracker) 0) as [t_first|e]; [|by intros [= <- <-]].
  destruct (Qltb (now - t_first)%Q _); [by intros [= <- <-]|].
  destruct (_cumulative_dist _ _ _ _) as [cum_dist|e]; [|by intros [= <- <-]].
  destruct (py_get (positions tracker) (-1)); [|by intros [= <- <-]].
  destruct (Qltb _ cum_dist); [by intros [= <- <-]|].
  destruct (_t0 self) as [t0|] eqn:H0.
  - destruct (Qltb (now - t0)%Q _) eqn:Hr; [by intros [= <- <-]|].
    apply Qltb_ge in Hr. intros [= <- <-]. exists now.
    repeat split; try done. by intros ? [= <-].
  - intros [= <- <-]. exists now. repeat split; done.
Qed.

(** X11.  [_run] of [SystemPlaySoundOnStop] reads the last time before it
    looks at the length of the history: on an empty history it raises
    [IndexError], where [SleepDepInteractor] decides not to act; on a
    history of one time it decides not to act.  In both cases the
    interactor is as it was. *)
Theorem play_sound_short_history self tracker :
  (times tracker = [] →
   _run sqrt tracker self = (self, Raise IndexError)) ∧
  (length (times tracker) = 1 →
   _run sqrt tracker self
     = (self, Return (false, {[ "freq" := _freq self ]}))).
Proof.
  split; intros Ht; unfold _run, bind, get, lift, modify, ret.
  - by rewrite Ht.
  - destruct (times tracker) as [|t [|]]; simplify_eq/=. done.
Qed.

(** X12.  A call of [_run] that does not decide to fire, or that raises,
    leaves the interactor as it was; a call that decides to fire writes the
    last time of the history to [_t0] and nothing else.  The parameters are
    the frequency, whatever the decision. *)
Theorem play_sound_run_frame self tracker self' r :
  _run sqrt tracker self = (self', r) →
  (r ≠ Return (true, {[ "freq" := _freq self ]}) → self' = self) ∧
  (∀ interact params, r = Return (interact, params) →
     params = {[ "freq" := _freq self ]}) ∧
  (r = Return (true, {[ "freq" := _freq self ]}) →
     ∃ now, py_get (times tracker) (-1) = Return now ∧
            self' = set_t0 (Some now) self).
Proof.
  intros H%play_sound_run_cases. destruct r as [[[] params]|e].
  - destruct H as (now & Hnow & -> & -> & _).
    split; [done|]. split; [by intros ?? [= _ <-]|]. intros _. by exists now.
  - destruct H as [-> ->]. split; [done|]. by split; [intros ?? [= _ <-]|].
  - subst. split; [done|]. by split.
Qed.

(** X13.  The times at which a sequence of calls decides to fire are
    [_rest_time] apart at least, each from the one before, and the first
    from the trigger the interactor remembers, whatever the histories and
    whatever their times. *)
Theorem fire_times_spaced self calls :
  spaced (_rest_time self) (_t0 self) (fire_times sqrt self calls).
Proof.
  revert self. induction calls as [|tracker calls IH]; intros self; [done|].
  simpl. destruct (_run sqrt tracker self) as [self' [[[] params]|e]] eqn:Hrun;
    apply play_sound_run_cases in Hrun; [| |done].
  - destruct Hrun as (now & Hnow & -> & _ & Hrest). rewrite Hnow. simpl.
    split; [|apply (IH (set_t0 (Some now) self))].
    destruct (_t0 self) as [t0|]; [by apply Hrest|done].
  - destruct Hrun as [-> _]. apply IH.
Qed.

(** The loop of [_cumulative_dist] stops at the first sample that is older
    than the window: what comes after it in the loop is not read. *)
Lemma cumulative_loop_window self now l1 t p l2 cum_dist lag :
  (_inactivity_time_threshold self < now - t)%Q →
  cumulative_loop sqrt self now (l1 ++ (t, p) :: l2) cum_dist (Some lag)
  = cumulative_loop sqrt self now (l1 ++ [(t, p)]) cum_dist (Some lag).
Proof.
  intros Ht%Qltb_lt. revert cum_dist lag.
  induction l1 as [|[t1 p1] l1 IH]; intros cum_dist [px py]; simpl.
  - by rewrite Ht.
  - destruct (Qltb _ (now - t1)%Q); [done|]. apply IH.
Qed.

(** X14.  The distance accumulated does not depend on the samples that
    come before a sample older than the window, when this sample is not
    the last of the history. *)
Theorem cumulative_dist_window self ts_old t ts now ps_old p ps q :
  length ts_old = length ps_old → length ts = length ps →
  (_inactivity_time_threshold self < now - t)%Q →
  _cumulative_dist sqrt self (ts_old ++ t :: ts ++ [now])
    (ps_old ++ p :: ps ++ [q])
  = _cumulative_dist sqrt self (t :: ts ++ [now]) (p :: ps ++ [q]).
Proof.
  intros Hold Hnew Ht. unfold _cumulative_dist.
  rewrite (app_comm_cons ts), (assoc_L (++) ts_old), py_get_last.
  rewrite <- (assoc_L (++) ts_old), <- (app_comm_cons ts).
  rewrite (app_comm_cons ts), py_get_last, <- (app_comm_cons ts).
  f_equal.
  rewrite zip_with_app by done. rewrite reverse_app.
  change (zip_with pair (t :: ts ++ [now]) (p :: ps ++ [q]))
    with ((t, p) :: zip_with pair (ts ++ [now]) (ps ++ [q])).
  rewrite zip_with_app by done. cbn [zip_with].
  rewrite reverse_cons, reverse_app. cbn [reverse rev_append app].
  rewrite <- !(assoc_L (++)). cbn [app].
  apply (cumulative_loop_window self now (reverse (zip_with pair ts ps))
           t p (reverse (zip_with pair ts_old ps_old)) _ (x q, y q) Ht).
Qed.
End play_sound_more.

Section play_sound_still.
Import interactors interactors.SystemPlaySoundOnStop.
Variable sqrt : Q → Q.
Hypothesis sqrt_0 : ∀ q, (q == 0)%Q → (sqrt q == 0)%Q.
Implicit Types (self : attrs) (tracker : Tracker).

(** On samples that are all at the place [p] the loop adds nothing. *)
Lemma cumulative_loop_still self now p l cum_dist lag :
  Forall (λ tp : Q * Position, tp.2 = p) l →
  (lag = None ∨ lag = Some (x p, y p)) →
  (cumulative_loop sqrt self now l cum_dist lag == cum_dist)%Q.
Proof.
  intros Hl. revert cum_dist lag.
  induction Hl as [|[t p'] l Hp _ IH]; intros cum_dist lag Hlag; simpl.
  - reflexivity.
  - simpl in Hp. subst p'. destruct Hlag as [->| ->].
    + apply IH. by right.
    + assert (cum_dist
              + sqrt ((x p - x p) * (x p - x p) + (y p - y p) * (y p - y p))
              == cum_dist)%Q as Hstep.
      { rewrite sqrt_0; ring. }
      destruct (Qltb _ (now - t)%Q); [done|].
      rewrite IH by (by right). exact Hstep.
Qed.

(** X15.  An animal that has not moved fires the interactor: on a history
    of two samples at least, all at one place, that goes back as far as
    the window, an interactor that has not fired yet, with a distance
    threshold that is not negative, decides to fire and writes the last
    time to [_t0]. *)
Theorem play_sound_fires_when_still self p ts t_first now n :
  (0 <= _distance_threshold self)%Q →
  _t0 self = None →
  length ts = n →
  (_inactivity_time_threshold self <= now - t_first)%Q →
  _run sqrt (mkTracker (replicate (S (S n)) p) (t_first :: ts ++ [now])) self
  = (set_t0 (Some now) self, Return (true, {[ "freq" := _freq self ]})).
Proof.
  intros Hthr H0 Hn Hspan%Qltb_ge.
  assert (py_get (t_first :: ts ++ [now]) (-1) = Return now) as Hlast
    by (rewrite app_comm_cons; apply py_get_last).
  assert (py_get (t_first :: ts ++ [now]) 0 = Return t_first) as Hfirst.
  { unfold py_get, py_index. rewrite decide_True by (simpl; lia). done. }
  assert (py_get (replicate (S (S n)) p) (-1) = Return p) as Hp.
  { rewrite replicate_S_end. apply py_get_last. }
  assert (cumulative_loop sqrt self now
            (reverse (zip (t_first :: ts ++ [now]) (replicate (S (S n)) p)))
            0 None == 0)%Q as Hcum.
  { apply (cumulative_loop_still self now p); [|by left].
    apply Forall_reverse, Forall_forall. intros [t p'] Hin.
    apply elem_of_zip_r, elem_of_replicate in Hin as [-> _]. done. }
  unfold _run. unfold bind at 1, get at 1. cbn [positions times].
  unfold bind at 1, lift at 1. rewrite Hlast.
  rewrite decide_False by (simpl; rewrite length_app; simpl; lia).
  unfold bind at 1, lift at 1. rewrite Hfirst, Hspan.
  unfold bind at 1, lift at 1. unfold _cumulative_dist. rewrite Hlast.
  unfold bind at 1, lift at 1. rewrite Hp.
  rewrite (proj2 (Qltb_ge _ _)); [|by rewrite Hcum].
  by rewrite H0.
Qed.
End play_sound_still.

Lemma sqrt_exact_0 q : (q == 0)%Q → (sqrt_exact q == 0)%Q.
Proof.
  unfold Qeq, sqrt_exact. simpl. rewrite !Z.mul_1_r. by intros ->.
Qed.

Lemma play_sound_fires_when_still_witness :
  let self := (interactors.SystemPlaySoundOnStop.__init__
                 (interactors.PyInt 440)).2 in
  interactors.SystemPlaySoundOnStop._run sqrt_exact
    (interactors.mkTracker [still; still; still] [0; 10; 30]%Q) self
  = (interactors.SystemPlaySoundOnStop.set_t0 (Some 30%Q) self,
     Return (true, kwargs_440)).
Proof.
  intros self.
  apply (play_sound_fires_when_still sqrt_exact sqrt_exact_0 self still
           [10%Q] 0%Q 30%Q 1).
  - by vm_compute.
  - reflexivity.
  - reflexivity.
  - by vm_compute.
Defined.

Section async_more.
Import interactors.
Variable sqrt : Q → Q.

(** X16.  A request that is dropped still counts as a trigger.  When
    [_run] of a [SystemPlaySoundOnStop] decides to fire while the process
    it holds is alive, the call starts nothing and returns the decision,
    and the time of this decision is in [_t0]: the next decision to fire
    comes [_rest_time] at least after it. *)
Theorem play_sound_dropped_request (trackers : tracker_ref → Tracker) tr
    self sub sub' ps params :
  BaseInteractor._tracker self = Some tr →
  is_alive ps (BaseInteractor._subprocess self) = true →
  SystemPlaySoundOnStop._run sqrt (trackers tr) sub
    = (sub', Return (true, params)) →
  SystemPlaySoundOnStop.__call__ sqrt trackers (self, sub, ps)
    = ((self, sub', ps), Return (<["interact" := PyBool true]> params)) ∧
  ∃ now, py_get (times (trackers tr)) (-1) = Return now ∧
    SystemPlaySoundOnStop._t0 sub' = Some now ∧
    ∀ tracker2 sub2 params2 now2,
      SystemPlaySoundOnStop._run sqrt tracker2 sub'
        = (sub2, Return (true, params2)) →
      py_get (times tracker2) (-1) = Return now2 →
      (SystemPlaySoundOnStop._rest_time sub <= now2 - now)%Q.
Proof.
  intros Htr Ha Hrun. split.
  - unfold SystemPlaySoundOnStop.__call__, BaseInteractor.__call__.
    unfold bind at 1, get at 1. cbn [fst snd]. rewrite Htr.
    unfold bind at 1, on_fst, on_snd. cbn [fst snd]. rewrite Hrun.
    unfold bind, BaseInteractor.on_base. cbn [fst snd].
    by rewrite (interact_async_busy params (self, ps)).
  - apply play_sound_run_cases in Hrun as (now & Hnow & -> & _ & _).
    exists now. split; [done|]. split; [done|].
    intros tracker2 sub2 params2 now2 H2 Hnow2.
    apply play_sound_run_cases in H2 as (now2' & Hnow2' & _ & _ & Hrest).
    rewrite Hnow2 in Hnow2'. injection Hnow2' as <-. by apply Hrest.
Qed.

(** X17.  The process that the class creates for all its instances is
    never started: whatever an interactor has gone through, the first
    process of the table is as the class made it, and it is not alive. *)
Theorem class_process_never_started self0 es :
  (BaseInteractor.after self0 es).2 !! 0 = Some (mkProcess None ∅ Initial) ∧
  is_alive (BaseInteractor.after self0 es).2 0 = false.
Proof.
  assert ((BaseInteractor.after self0 es).2 !! 0
          = Some (mkProcess None ∅ Initial)) as H;
    [|split; [done|unfold is_alive; by rewrite H]].
  unfold BaseInteractor.after.
  assert ((BaseInteractor.set_subprocess 0 self0,
           BaseInteractor.class_processes).2 !! 0
          = Some (mkProcess None ∅ Initial)) as H0 by done.
  revert H0.
  generalize (BaseInteractor.set_subprocess 0 self0,
              BaseInteractor.class_processes).
  induction es as [|e es IH]; intros s Hs; simpl; [done|]. apply IH.
  destruct e as [kwargs|p]; simpl.
  - unfold BaseInteractor._interact_async, bind, get, ret, raise,
      BaseInteractor.start_process, modify.
    destruct (is_alive s.2 _); [done|].
    destruct (BaseInteractor._target s.1); [|done]. simpl.
    rewrite lookup_app_l; [done|]. by eapply lookup_lt_Some.
  - unfold BaseInteractor.exit_process.
    destruct (s.2 !! p) as [[tg kw []]|] eqn:Hp; try done.
    rewrite list_lookup_insert_ne; [done|]. intros ->.
    rewrite Hs in Hp. done.
Qed.

(** X18.  A [DefaultInteractor] never acts: with a tracker bound its call
    returns the decision [False] and nothing else, whatever the history of
    the tracker; it starts no process and, having no target, does not come
    to the [NotImplementedError] of line 117.  Without a tracker its call
    raises [ValueError]. *)
Theorem default_interactor_never_acts (trackers : tracker_ref → Tracker)
    self ps :
  DefaultInteractor.__call__ trackers (self, tt, ps)
  = ((self, tt, ps),
     match BaseInteractor._tracker self with
     | Some _ => Return {[ "interact" := PyBool false ]}
     | None => Raise ValueError
     end).
Proof.
  unfold DefaultInteractor.__call__, BaseInteractor.__call__.
  unfold bind at 1, get at 1. cbn [fst snd].
  destruct (BaseInteractor._tracker self); [|done].
  unfold bind, on_fst, on_snd, DefaultInteractor._run, ret. simpl.
  by rewrite insert_empty.
Qed.
End async_more.

Lemma play_sound_dropped_request_witness :
  let sub := (interactors.SystemPlaySoundOnStop.__init__
                (interactors.PyInt 440)).2 in
  let self := interactors.BaseInteractor.mkAttrs (Some 0) 1
                (Some interactors.beep) in
  let ps := [interactors.mkProcess None ∅ interactors.Initial;
             interactors.mkProcess (Some interactors.beep) kwargs_440
               interactors.Running] in
  interactors.SystemPlaySoundOnStop.__call__ sqrt_exact (λ _, threshold_walk)
    (self, sub, ps)
  = ((self, interactors.SystemPlaySoundOnStop.set_t0 (Some 30%Q) sub, ps),
     Return (<["interact" := interactors.PyBool true]> kwargs_440)).
Proof.
  intros sub self ps.
  apply (play_sound_dropped_request sqrt_exact (λ _, threshold_walk) 0 self
           sub (interactors.SystemPlaySoundOnStop.set_t0 (Some 30%Q) sub) ps
           kwargs_440).
  - reflexivity.
  - reflexivity.
  - vm_compute. reflexivity.
Defined.

(** A new [SleepDepInteractor] that has seen one position. *)
Lemma sleep_dep_run_frame_witness :
  let self := interactors.SleepDepInteractor.__init__
                (interactors.PyInt 1) tt in
  let tracker := interactors.mkTracker [still] [0%Q] in
  interactors.SleepDepInteractor._run sqrt_exact tracker self
    = (self, Return (false, {[ "channel" := interactors.PyInt 1 ]})) ∧
  (length (interactors.positions tracker) < 2 →
   self = self ∧
   Return (false, ({[ "channel" := interactors.PyInt 1 ]} : interactors.dict))
     = Return (false,
               {[ "channel" := interactors.SleepDepInteractor._channel self ]})).
Proof.
  intros self tracker.
  assert (interactors.SleepDepInteractor._run sqrt_exact tracker self
          = (self, Return (false, {[ "channel" := interactors.PyInt 1 ]})))
    as Hrun by (vm_compute; reflexivity).
  split; [exact Hrun|].
  exact (proj2 (proj2 (sleep_dep_run_frame sqrt_exact self tracker _ _ Hrun))).
Defined.

(** An animal that has not moved for 200 s, with the timer started at 0. *)
Lemma sleep_dep_fires_only_when_witness :
  let self := interactors.SleepDepInteractor.set_t0 (Some 0%Q)
                (interactors.SleepDepInteractor.__init__
                   (interactors.PyInt 1) tt) in
  let tracker := interactors.mkTracker [still; still] [0%Q; 200%Q] in
  interactors.SleepDepInteractor._run sqrt_exact tracker self
    = (interactors.SleepDepInteractor.set_t0 None self,
       Return (true, {[ "channel" := interactors.PyInt 1 ]})) ∧
  ∀ tracker2 self2 params2,
    interactors.SleepDepInteractor._run sqrt_exact tracker2
      (interactors.SleepDepInteractor.set_t0 None self)
    ≠ (self2, Return (true, params2)).
Proof.
  intros self tracker.
  assert (interactors.SleepDepInteractor._run sqrt_exact tracker self
          = (interactors.SleepDepInteractor.set_t0 None self,
             Return (true, {[ "channel" := interactors.PyInt 1 ]})))
    as Hrun by (vm_compute; reflexivity).
  split; [exact Hrun|].
  exact (proj2 (proj2
           (sleep_dep_fires_only_when sqrt_exact self tracker _ _ Hrun))).
Defined.

(** A new [SystemPlaySoundOnStop] on no history, and on a history of one
    sample. *)
Lemma play_sound_short_history_witness :
  let self := (interactors.SystemPlaySoundOnStop.__init__
                 (interactors.PyInt 440)).2 in
  interactors.SystemPlaySoundOnStop._run sqrt_exact
    (interactors.mkTracker [] []) self = (self, Raise IndexError) ∧
  interactors.SystemPlaySoundOnStop._run sqrt_exact
    (interactors.mkTracker [still] [0%Q]) self
  = (self, Return (false, kwargs_440)).
Proof.
  intros self. split.
  - apply (proj1 (play_sound_short_history sqrt_exact self
                    (interactors.mkTracker [] []))).
    reflexivity.
  - apply (proj2 (play_sound_short_history sqrt_exact self
                    (interactors.mkTracker [still] [0%Q]))).
    reflexivity.
Defined.

(** The walk of [threshold_walk], on which a new interactor fires. *)
Lemma play_sound_run_frame_witness :
  let self := (interactors.SystemPlaySoundOnStop.__init__
                 (interactors.PyInt 440)).2 in
  ∃ now,
    py_get (interactors.times threshold_walk) (-1) = Return now ∧
    interactors.SystemPlaySoundOnStop.set_t0 (Some 30%Q) self
    = interactors.SystemPlaySoundOnStop.set_t0 (Some now) self.
Proof.
  intros self.
  apply (proj2 (proj2
           (play_sound_run_frame sqrt_exact self threshold_walk
              (interactors.SystemPlaySoundOnStop.set_t0 (Some 30%Q) self)
              (Return (true, kwargs_440))
              ltac:(vm_compute; reflexivity)))).
  reflexivity.
Defined.

(** A window of 30 s at time 50: the sample of time 10 is older than the
    window, and the sample of time 0 before it is not looked at. *)
Lemma cumulative_dist_window_witness :
  let self := (interactors.SystemPlaySoundOnStop.__init__
                 (interactors.PyInt 440)).2 in
  interactors.SystemPlaySoundOnStop._cumulative_dist sqrt_exact self
    [0%Q; 10%Q; 50%Q] [still; moved; still]
  = interactors.SystemPlaySoundOnStop._cumulative_dist sqrt_exact self
      [10%Q; 50%Q] [moved; still].
Proof.
  intros self.
  apply (cumulative_dist_window sqrt_exact self [0%Q] 10%Q [] 50%Q
           [still] moved [] still).
  - reflexivity.
  - reflexivity.
  - reflexivity.
Defined.
